(** * Per-thread heap attachment of the Hoard allocator (source/unixtls.cpp)

    A shallow embedding of the thread-local allocation buffer (TLAB)
    storage, of the teardown routine and of the interposed
    [pthread_create] / [pthread_exit], followed by the properties of the
    thread lifecycle that the code establishes.

    The collaborators declared outside the file (the main Hoard heap, the
    TLAB type, the pthread runtime, [dlsym], [operator new]) act through a
    log of their calls: every call is appended to the [trace] of the world,
    in program order. *)

From stdpp Require Import base gmap strings list.
From Stdlib Require Import ZArith.

Local Open Scope Z_scope.

(** ** Data *)

Definition tid := nat.
Bind Scope nat_scope with tid.

(** Storage that can hold a TLAB or a launch package: the [tlabBuffer] of a
    thread, a block handed out by the main heap's [malloc], or a block
    handed out by [operator new].  The null pointer is [None] of
    [option addr]. *)
Inductive addr :=
| TlabBuffer (t : tid)
| PoolBlock (n : nat)
| NewBlock (n : nat).

Global Instance addr_eq_dec : EqDecision addr.
Proof. solve_decision. Defined.

(** The build-time choice [USE_THREAD_KEYWORD]: [Inline] is the [__thread]
    buffer, [Keyed] the [pthread_key_t] fallback. *)
Inductive Variant := Inline | Keyed.

(** [threadFunctionType]: the address of a caller-supplied entry function. *)
Definition threadFunctionType := nat.
Bind Scope nat_scope with threadFunctionType.

(** What is passed as [start_routine] to a thread-creation call. *)
Inductive codeptr :=
| StartMeUp
| UserFn (f : threadFunctionType).

(** What a thread body does, as far as this file can see it: it uses the
    allocator (every allocation and free goes through [getCustomHeap]), it
    may call the interposed [pthread_exit], and it ends by returning
    [retval]. *)
Inductive Step :=
| UseHeap
| CallPthreadExit (v : Z).

Record Body := { steps : list Step; retval : Z }.

(** A symbol found by [dlsym (RTLD_NEXT, ...)].  [SymCreate rc]: a
    thread-creation function, [rc] its return code for the arguments it is
    given.  [SymExit noreturn]: a thread-exit function; the C library's
    never returns, [noreturn = false] stands for one that does. *)
Inductive Symbol :=
| SymCreate (rc : Z -> Z -> codeptr -> addr -> Z)
| SymExit (noreturn : bool).

Inductive Event :=
| EvPoolMalloc (t : tid) (sz : nat) (p : addr)   (* getMainHoardHeap()->malloc (sz) *)
| EvConstruct (t : tid) (h : addr)               (* new (h) TheCustomHeapType (getMainHoardHeap()) *)
| EvUse (t : tid) (h : addr)                     (* the thread body allocates or frees through h *)
| EvFindUnusedHeap (t : tid)                     (* getMainHoardHeap()->findUnusedHeap() *)
| EvClear (t : tid) (h : addr)                   (* h->clear() *)
| EvPoolFree (t : tid) (p : addr)                (* getMainHoardHeap()->free (p) *)
| EvReleaseHeap (t : tid)                        (* getMainHoardHeap()->releaseHeap() *)
| EvAnyThreadCreated                             (* anyThreadCreated = true *)
| EvNewPair (t : tid) (p : addr) (f : threadFunctionType) (arg : Z)
| EvRealCreate (t : tid) (thread attr : Z) (start : codeptr) (args : addr)
| EvCallEntry (t : tid) (f : threadFunctionType) (arg : Z)
| EvEntryReturned (t : tid) (v : Z)
| EvForwardExit (t : tid) (v : Z)                (* the call through real_pthread_exit *)
| EvThreadTerminated (t : tid) (v : Z)
| EvProcessExit (code : Z).                      (* exit (code) *)

Global Instance codeptr_eq_dec : EqDecision codeptr.
Proof. solve_decision. Defined.

Global Instance Event_eq_dec : EqDecision Event.
Proof. solve_decision. Defined.

(** The build and the platform the code runs on. *)
Record Platform := {
  variant : Variant;
  linux : bool;                          (* defined(__linux__) *)
  ndebug : bool;                         (* defined(NDEBUG): assert expands to nothing *)
  sizeof_TheCustomHeapType : nat;
  key_create_ok : bool;                  (* whether pthread_key_create succeeds *)
  dlsym_next : string -> option Symbol;  (* dlsym (RTLD_NEXT, name) *)
  code : threadFunctionType -> Z -> Body (* the entry functions of the program *)
}.

(** The variables of the file and the storage it touches.

    [theHeapKey] is a zero-initialised static.  When [pthread_key_create]
    has succeeded it names the key of this file, whose destructor is
    [deleteThatHeap]: the field is [true].  When the creation has failed
    it still names key 0, which some other code of the process has
    created (the creation fails when all keys are in use): the field is
    [false].  In both cases [specific] holds the values of the threads
    under the key that [theHeapKey] names. *)
Record World := {
  theTLAB : gmap tid addr;               (* static __thread theTLAB, per thread; absent = NULL *)
  theHeapKey : bool;                     (* pthread_key_create has succeeded *)
  key_once : bool;                       (* pthread_once_t key_once has fired *)
  initializedTSD : bool;                 (* static bool initializedTSD *)
  specific : gmap tid addr;              (* pthread_getspecific (theHeapKey), per thread *)
  create_t : bool;                       (* the static t of pthread_create is initialised *)
  real_pthread_create : option (option Symbol);
  real_pthread_exit : option (option Symbol);
  anyThreadCreated : bool;
  pool_next : nat;                       (* next block of the main heap *)
  new_next : nat;                        (* next block of operator new *)
  pairs : gmap nat (threadFunctionType * Z);
  spawned : list (codeptr * addr);       (* threads the real creation call has started *)
  trace : list Event
}.

Definition set_theTLAB (f : gmap tid addr -> gmap tid addr) (w : World) : World :=
  Build_World (f (theTLAB w)) (theHeapKey w) (key_once w) (initializedTSD w)
    (specific w) (create_t w) (real_pthread_create w) (real_pthread_exit w)
    (anyThreadCreated w) (pool_next w) (new_next w) (pairs w) (spawned w) (trace w).

Definition set_theHeapKey (b : bool) (w : World) : World :=
  Build_World (theTLAB w) b (key_once w) (initializedTSD w)
    (specific w) (create_t w) (real_pthread_create w) (real_pthread_exit w)
    (anyThreadCreated w) (pool_next w) (new_next w) (pairs w) (spawned w) (trace w).

Definition set_key_once (b : bool) (w : World) : World :=
  Build_World (theTLAB w) (theHeapKey w) b (initializedTSD w)
    (specific w) (create_t w) (real_pthread_create w) (real_pthread_exit w)
    (anyThreadCreated w) (pool_next w) (new_next w) (pairs w) (spawned w) (trace w).

Definition set_initializedTSD (b : bool) (w : World) : World :=
  Build_World (theTLAB w) (theHeapKey w) (key_once w) b
    (specific w) (create_t w) (real_pthread_create w) (real_pthread_exit w)
    (anyThreadCreated w) (pool_next w) (new_next w) (pairs w) (spawned w) (trace w).

Definition set_specific (f : gmap tid addr -> gmap tid addr) (w : World) : World :=
  Build_World (theTLAB w) (theHeapKey w) (key_once w) (initializedTSD w)
    (f (specific w)) (create_t w) (real_pthread_create w) (real_pthread_exit w)
    (anyThreadCreated w) (pool_next w) (new_next w) (pairs w) (spawned w) (trace w).

Definition set_create_t (b : bool) (w : World) : World :=
  Build_World (theTLAB w) (theHeapKey w) (key_once w) (initializedTSD w)
    (specific w) b (real_pthread_create w) (real_pthread_exit w)
    (anyThreadCreated w) (pool_next w) (new_next w) (pairs w) (spawned w) (trace w).

Definition set_real_pthread_create (s : option (option Symbol)) (w : World) : World :=
  Build_World (theTLAB w) (theHeapKey w) (key_once w) (initializedTSD w)
    (specific w) (create_t w) s (real_pthread_exit w)
    (anyThreadCreated w) (pool_next w) (new_next w) (pairs w) (spawned w) (trace w).

Definition set_real_pthread_exit (s : option (option Symbol)) (w : World) : World :=
  Build_World (theTLAB w) (theHeapKey w) (key_once w) (initializedTSD w)
    (specific w) (create_t w) (real_pthread_create w) s
    (anyThreadCreated w) (pool_next w) (new_next w) (pairs w) (spawned w) (trace w).

Definition set_anyThreadCreated (b : bool) (w : World) : World :=
  Build_World (theTLAB w) (theHeapKey w) (key_once w) (initializedTSD w)
    (specific w) (create_t w) (real_pthread_create w) (real_pthread_exit w)
    b (pool_next w) (new_next w) (pairs w) (spawned w) (trace w).

Definition set_pool_next (n : nat) (w : World) : World :=
  Build_World (theTLAB w) (theHeapKey w) (key_once w) (initializedTSD w)
    (specific w) (create_t w) (real_pthread_create w) (real_pthread_exit w)
    (anyThreadCreated w) n (new_next w) (pairs w) (spawned w) (trace w).

Definition store_pair (n : nat) (z : threadFunctionType * Z) (w : World) : World :=
  Build_World (theTLAB w) (theHeapKey w) (key_once w) (initializedTSD w)
    (specific w) (create_t w) (real_pthread_create w) (real_pthread_exit w)
    (anyThreadCreated w) (pool_next w) (S n) (<[n := z]> (pairs w)) (spawned w) (trace w).

Definition spawn (start : codeptr) (args : addr) (w : World) : World :=
  Build_World (theTLAB w) (theHeapKey w) (key_once w) (initializedTSD w)
    (specific w) (create_t w) (real_pthread_create w) (real_pthread_exit w)
    (anyThreadCreated w) (pool_next w) (new_next w) (pairs w)
    (spawned w ++ [(start, args)]) (trace w).

Definition logs (evs : list Event) (w : World) : World :=
  Build_World (theTLAB w) (theHeapKey w) (key_once w) (initializedTSD w)
    (specific w) (create_t w) (real_pthread_create w) (real_pthread_exit w)
    (anyThreadCreated w) (pool_next w) (new_next w) (pairs w) (spawned w)
    (trace w ++ evs).

Definition log (e : Event) (w : World) : World := logs [e] w.

(** ** Control: a call returns, or the thread or the process is gone *)

Inductive Outcome (A : Type) :=
| Returned (a : A)          (* the call returns to its caller *)
| ThreadGone (v : Z)        (* the calling thread has terminated with result v *)
| ProcessExit (c : Z)       (* exit (c) *)
| Aborted                   (* a failed assert *)
| Crashed.                  (* a call through a pointer that is null or of the wrong kind *)

Global Arguments Returned {A} a.
Global Arguments ThreadGone {A} v.
Global Arguments ProcessExit {A} c.
Global Arguments Aborted {A}.
Global Arguments Crashed {A}.

Definition M (A : Type) : Type := World -> Outcome A * World.

Definition M_ret {A} (a : A) : M A := fun w => (Returned a, w).

Definition M_bind {A B} (k : A -> M B) (m : M A) : M B :=
  fun w =>
    match m w with
    | (Returned a, w') => k a w'
    | (ThreadGone v, w') => (ThreadGone v, w')
    | (ProcessExit c, w') => (ProcessExit c, w')
    | (Aborted, w') => (Aborted, w')
    | (Crashed, w') => (Crashed, w')
    end.

Global Instance M_MRet : MRet M := @M_ret.
Global Instance M_MBind : MBind M := @M_bind.

Definition get {A} (f : World -> A) : M A := fun w => (Returned (f w), w).
Definition modify (f : World -> World) : M unit := fun w => (Returned tt, f w).
Definition emit (e : Event) : M unit := modify (log e).
Definition stop {A} (o : Outcome A) : M A := fun w => (o, w).
Definition assert (b : bool) : M unit := if b then mret tt else stop Aborted.

Definition is_returned {A} (o : Outcome A) : bool :=
  match o with Returned _ => true | _ => false end.

(** The events a run has added to the log. *)
Definition new_events (w w' : World) : list Event :=
  drop (length (trace w)) (trace w').

(** ** The code *)

Section Unixtls.

Variable P : Platform.

(** *** Collaborators: the main Hoard heap and the TLAB type

    [hoard/hoardtlab.h] declares [TheCustomHeapType] and the type of
    [getMainHoardHeap()]; it is not part of the file.  Each of their
    operations is a call recorded in the log. *)

(** Modelled from the spec: the Local Cache type of hoardtlab.h is
    "constructible from a Global Heap Pool reference"; the placement
    construction of a Local Cache at [h]. *)
Definition TheCustomHeapType_ctor (t : tid) (h : addr) : M unit := emit (EvConstruct t h).

(** Modelled from the spec: the Local Cache of hoardtlab.h "exposes
    clear() (flush cached memory back to the pool)". *)
Definition heap_clear (t : tid) (h : addr) : M unit := emit (EvClear t h).

(** Modelled from the spec: findUnusedHeap() of the Global Heap Pool
    (hoardtlab.h) leases a heap identity for the calling thread. *)
Definition findUnusedHeap (t : tid) : M unit := emit (EvFindUnusedHeap t).

(** Modelled from the spec: releaseHeap() of the Global Heap Pool
    (hoardtlab.h) gives the heap identity of the calling thread back. *)
Definition releaseHeap (t : tid) : M unit := emit (EvReleaseHeap t).

(** Modelled from the spec: free(ptr) of the Global Heap Pool (hoardtlab.h). *)
Definition main_free (t : tid) (p : addr) : M unit := emit (EvPoolFree t p).

(** Modelled from the spec: malloc(size) of the Global Heap Pool
    (hoardtlab.h); it hands out a block that was not handed out before. *)
Definition main_malloc (t : tid) (sz : nat) : M addr :=
  n ← get pool_next;
  modify (set_pool_next (S n));;
  emit (EvPoolMalloc t sz (PoolBlock n));;
  mret (PoolBlock n).

(** *** USE_THREAD_KEYWORD: the TLAB in a __thread buffer *)

Definition initializeCustomHeap_inline (t : tid) : M addr :=
  TheCustomHeapType_ctor t (TlabBuffer t);;
  modify (set_theTLAB (<[t := TlabBuffer t]>));;
  mret (TlabBuffer t).

Definition getCustomHeap_inline (t : tid) : M addr :=
  cur ← get (fun w => theTLAB w !! t);
  h ← match cur with
      | Some h => mret h
      | None => initializeCustomHeap_inline t
      end;
  modify (set_theTLAB (<[t := h]>));;
  get (fun w => default h (theTLAB w !! t)).

(** *** !USE_THREAD_KEYWORD: the TLAB under a pthread key *)

Definition sizeof_double : nat := 8.
Definition EAGAIN : Z := 11.

Definition deleteThatHeap (p : addr) (t : tid) : M unit :=
  heap_clear t p;;
  main_free t p;;
  releaseHeap t.

Definition pthread_key_create : M Z :=
  if key_create_ok P
  then (modify (set_theHeapKey true);; mret 0)
  else mret EAGAIN.

Definition make_heap_key : M unit :=
  r ← pthread_key_create;
  match negb (r =? 0) with
  | true => mret tt   (* This should never happen. *)
  | false => mret tt
  end.

Definition pthread_once (init_routine : M unit) : M unit :=
  fired ← get key_once;
  match fired with
  | true => mret tt
  | false => init_routine;; modify (set_key_once true)
  end.

Definition initTSD : M unit :=
  i ← get initializedTSD;
  match negb i with
  | true => pthread_once make_heap_key;; modify (set_initializedTSD true)
  | false => mret tt
  end.

(** The key that [theHeapKey] names is a live key of the C library whether
    or not [pthread_key_create] has succeeded (see [World]): the value of
    the calling thread is found under it and stored under it. *)
Definition pthread_getspecific (t : tid) : M (option addr) :=
  get (fun w => specific w !! t).

Definition pthread_setspecific (t : tid) (p : addr) : M Z :=
  modify (set_specific (<[t := p]>));; mret 0.

(** [assert (b)] of the C library: nothing when [NDEBUG] is defined. *)
Definition c_assert (b : bool) : M unit :=
  if ndebug P then mret tt else assert b.

Definition initializeCustomHeap_keyed (t : tid) : M addr :=
  cur ← pthread_getspecific t;
  c_assert (bool_decide (cur = None));;
  let sz := (sizeof_TheCustomHeapType P + sizeof_double)%nat in
  mh ← main_malloc t sz;
  TheCustomHeapType_ctor t mh;;
  pthread_setspecific t mh;;
  mret mh.

Definition getCustomHeap_keyed (t : tid) : M addr :=
  initTSD;;
  heap ← pthread_getspecific t;
  match heap with
  | None => initializeCustomHeap_keyed t
  | Some h => mret h
  end.

(** *** The variant the build selects *)

Definition getCustomHeap (t : tid) : M addr :=
  match variant P with
  | Inline => getCustomHeap_inline t
  | Keyed => getCustomHeap_keyed t
  end.

(** *** Teardown *)

Definition exitRoutine (t : tid) : M unit :=
  heap ← getCustomHeap t;
  heap_clear t heap;;
  releaseHeap t.

(** *** The platform's end of a thread: the destructor of every key whose
    value is set runs, then the thread is gone.  Only the keyed build
    registers a key, and [deleteThatHeap] is the destructor of the key only
    when [pthread_key_create] has succeeded. *)

Definition run_tsd_destructors (t : tid) : M unit :=
  match variant P with
  | Inline => mret tt
  | Keyed =>
      k ← get theHeapKey;
      match k with
      | true =>
          v ← get (fun w => specific w !! t);
          match v with
          | Some p => modify (set_specific (delete t));; deleteThatHeap p t
          | None => mret tt
          end
      | false => mret tt
      end
  end.

Definition libc_thread_exit {A} (t : tid) (v : Z) : M A :=
  run_tsd_destructors t;;
  emit (EvThreadTerminated t v);;
  stop (ThreadGone v).

(** *** pthread_exit *)

Definition fname_pthread_exit : string :=
  if linux P then "pthread_exit" else "_pthread_exit".

Definition init_real_pthread_exit : M (option Symbol) :=
  c ← get real_pthread_exit;
  match c with
  | Some s => mret s
  | None =>
      let s := dlsym_next P fname_pthread_exit in
      (modify (set_real_pthread_exit (Some s));; mret s)
  end.

Definition call_exit_function (fp : option Symbol) (v : Z) (t : tid) : M unit :=
  match fp with
  | Some (SymExit noreturn) =>
      emit (EvForwardExit t v);;
      if noreturn then libc_thread_exit t v else mret tt
  | _ => stop Crashed
  end.

Definition exit_ {A} (c : Z) : M A :=
  emit (EvProcessExit c);; stop (ProcessExit c).

Definition pthread_exit (value_ptr : Z) (t : tid) : M unit :=
  real ← init_real_pthread_exit;
  exitRoutine t;;
  call_exit_function real value_ptr t;;
  exit_ 0.

(** *** startMeUp *)

Definition run_step (t : tid) (s : Step) : M unit :=
  match s with
  | UseHeap => h ← getCustomHeap t; emit (EvUse t h)
  | CallPthreadExit v => pthread_exit v t
  end.

Fixpoint run_steps (t : tid) (l : list Step) : M unit :=
  match l with
  | [] => mret tt
  | s :: l' => run_step t s;; run_steps t l'
  end.

Definition call_entry (f : threadFunctionType) (arg : Z) (t : tid) : M Z :=
  emit (EvCallEntry t f arg);;
  run_steps t (steps (code P f arg));;
  emit (EvEntryReturned t (retval (code P f arg)));;
  mret (retval (code P f arg)).

Definition load_pair (a : addr) : M (threadFunctionType * Z) :=
  match a with
  | NewBlock n =>
      z ← get (fun w => pairs w !! n);
      match z with
      | Some z => mret z
      | None => stop Crashed
      end
  | _ => stop Crashed
  end.

Definition startMeUp (a : addr) (t : tid) : M Z :=
  getCustomHeap t;;
  findUnusedHeap t;;
  z ← load_pair a;
  let f := z.1 in
  let arg := z.2 in
  result ← call_entry f arg t;
  exitRoutine t;;
  mret result.

(** The life of a thread that the real creation call has started on
    [startMeUp]: when the start routine returns, the platform ends the
    thread with the returned value. *)
Definition thread_main (a : addr) (t : tid) : M Z :=
  r ← startMeUp a t;
  libc_thread_exit t r.

(** *** pthread_create *)

Definition fname_pthread_create : string :=
  if linux P then "pthread_create" else "_pthread_create".

Definition init_real_pthread_create : M (option Symbol) :=
  c ← get real_pthread_create;
  match c with
  | Some s => mret s
  | None =>
      let s := dlsym_next P fname_pthread_create in
      (modify (set_real_pthread_create (Some s));; mret s)
  end.

Definition new_pair (f : threadFunctionType) (arg : Z) (t : tid) : M addr :=
  n ← get new_next;
  modify (store_pair n (f, arg));;
  emit (EvNewPair t (NewBlock n) f arg);;
  mret (NewBlock n).

Definition call_create_function (fp : option Symbol) (thread attr : Z)
    (start : codeptr) (args : addr) (t : tid) : M Z :=
  match fp with
  | Some (SymCreate rc) =>
      emit (EvRealCreate t thread attr start args);;
      let r := rc thread attr start args in
      (if r =? 0 then modify (spawn start args) else mret tt);;
      mret r
  | _ => stop Crashed
  end.

Definition pthread_create (thread attr : Z) (start_routine : threadFunctionType)
    (arg : Z) (t : tid) : M Z :=
  init ← get create_t;
  match init with
  | true => mret tt
  | false => getCustomHeap t;; modify (set_create_t true)
  end;;
  real ← init_real_pthread_create;
  emit EvAnyThreadCreated;;
  modify (set_anyThreadCreated true);;
  args ← new_pair start_routine arg t;
  result ← call_create_function real thread attr StartMeUp args t;
  mret result.

End Unixtls.

(** ** Vocabulary of the properties *)

(** What a run leaves alone when it only works on the TLAB storage. *)
Definition frame (w w' : World) : Prop :=
  create_t w' = create_t w /\
  real_pthread_create w' = real_pthread_create w /\
  real_pthread_exit w' = real_pthread_exit w /\
  anyThreadCreated w' = anyThreadCreated w /\
  new_next w' = new_next w /\
  pairs w' = pairs w /\
  spawned w' = spawned w.

(** Events of constructing a TLAB, and events a thread body can cause. *)
Definition is_setup (e : Event) : bool :=
  match e with
  | EvPoolMalloc _ _ _ | EvConstruct _ _ => true
  | _ => false
  end.

(** A thread body that only allocates causes constructions and uses. *)
Definition is_body (e : Event) : bool :=
  match e with
  | EvPoolMalloc _ _ _ | EvConstruct _ _ | EvUse _ _ => true
  | _ => false
  end.

(** The number of [releaseHeap] calls, and of [findUnusedHeap] calls, that
    thread [t] has made in a log. *)
Definition count_release (t : tid) (evs : list Event) : nat :=
  length (filter (fun e => e = EvReleaseHeap t) evs).

Definition count_find (t : tid) (evs : list Event) : nat :=
  length (filter (fun e => e = EvFindUnusedHeap t) evs).

Section Vocabulary.

Variable P : Platform.

(** Whether the key is registered once [initTSD] has run. *)
Definition key_after_init (w : World) : bool :=
  if initializedTSD w || key_once w then theHeapKey w
  else key_create_ok P || theHeapKey w.

(** Whether [key_once] has fired once [initTSD] has run. *)
Definition once_after_init (w : World) : bool :=
  if initializedTSD w then key_once w else true.

(** The world [initTSD] leaves. *)
Definition tsd_done (w : World) : World :=
  set_initializedTSD true
    (set_key_once (once_after_init w) (set_theHeapKey (key_after_init w) w)).

(** The world [initializeCustomHeap] of the keyed variant leaves. *)
Definition keyed_fresh (t : tid) (w : World) : World :=
  let n := pool_next w in
  let sz := (sizeof_TheCustomHeapType P + sizeof_double)%nat in
  set_specific <[t := PoolBlock n]>
    (log (EvConstruct t (PoolBlock n))
       (log (EvPoolMalloc t sz (PoolBlock n)) (set_pool_next (S n) w))).

(** What the thread-local storage of thread [t] holds. *)
Definition tls_value (w : World) (t : tid) : option addr :=
  match variant P with
  | Inline => theTLAB w !! t
  | Keyed => specific w !! t
  end.

(** The TLAB that [getCustomHeap] finds for thread [t], if it finds one. *)
Definition slot (w : World) (t : tid) : option addr :=
  match variant P with
  | Inline => theTLAB w !! t
  | Keyed => specific w !! t
  end.

(** Where a TLAB constructed now would live, and the calls that construct it. *)
Definition fresh_tlab (w : World) (t : tid) : addr :=
  match variant P with
  | Inline => TlabBuffer t
  | Keyed => PoolBlock (pool_next w)
  end.

Definition construct_events (w : World) (t : tid) : list Event :=
  match variant P with
  | Inline => [EvConstruct t (TlabBuffer t)]
  | Keyed =>
      [EvPoolMalloc t (sizeof_TheCustomHeapType P + sizeof_double)
         (PoolBlock (pool_next w));
       EvConstruct t (PoolBlock (pool_next w))]
  end.

(** What a call of [getCustomHeap] adds to the log, and what it returns. *)
Definition setup_events (w : World) (t : tid) : list Event :=
  match slot w t with
  | Some _ => []
  | None => construct_events w t
  end.

Definition tlab_found (w : World) (t : tid) : addr :=
  default (fresh_tlab w t) (slot w t).

(** The one-time registration of the key succeeds (or has succeeded). *)
Definition registration_ok (w : World) : Prop :=
  variant P = Keyed -> key_after_init w = true.

(** Thread [t] has its TLAB [h] and the storage is set up. *)
Definition bound (w : World) (t : tid) (h : addr) : Prop :=
  match variant P with
  | Inline => theTLAB w !! t = Some h
  | Keyed =>
      initializedTSD w = true /\ theHeapKey w = true /\ specific w !! t = Some h
  end.

(** What the destructors of the keys add when thread [t] ends in [w]. *)
(** Thread [t] finds its TLAB [h]: the storage is initialised and holds
    [h] for the thread, whether or not the key is this file's. *)
Definition settled (w : World) (t : tid) (h : addr) : Prop :=
  match variant P with
  | Inline => theTLAB w !! t = Some h
  | Keyed => initializedTSD w = true /\ specific w !! t = Some h
  end.

Definition dtor_events (w : World) (t : tid) : list Event :=
  match variant P with
  | Inline => []
  | Keyed =>
      if theHeapKey w then
        match specific w !! t with
        | Some p => [EvClear t p; EvPoolFree t p; EvReleaseHeap t]
        | None => []
        end
      else []
  end.

(** What the destructor of the key adds at the end of a thread that has
    the TLAB [h]. *)
Definition key_teardown (t : tid) (h : addr) : list Event :=
  match variant P with
  | Inline => []
  | Keyed => [EvClear t h; EvPoolFree t h; EvReleaseHeap t]
  end.

(** The function [real_pthread_exit] points to once its initialiser has run. *)
Definition resolved_exit (w : World) : option Symbol :=
  match real_pthread_exit w with
  | Some s => s
  | None => dlsym_next P (fname_pthread_exit P)
  end.

(** The function [real_pthread_create] points to once its initialiser has run. *)
Definition resolved_create (w : World) : option Symbol :=
  match real_pthread_create w with
  | Some s => s
  | None => dlsym_next P (fname_pthread_create P)
  end.

(** [n] calls of [getCustomHeap] in a row, and what they return. *)
Fixpoint get_many (n : nat) (t : tid) : M (list addr) :=
  match n with
  | O => mret []
  | S k => h ← getCustomHeap P t; hs ← get_many k t; mret (h :: hs)
  end.

End Vocabulary.

(** A thread body that never calls [pthread_exit]: it returns. *)
Definition only_uses (l : list Step) : Prop := Forall (fun s => s = UseHeap) l.

(** How the call through [real_pthread_exit] and what follows it end. *)
Definition forward_outcome (s : option Symbol) (v : Z) : Outcome unit :=
  match s with
  | Some (SymExit true) => ThreadGone v
  | Some (SymExit false) => ProcessExit 0
  | _ => Crashed
  end.

Definition forward_events (s : option Symbol) (t : tid) (v : Z)
    (dtor : list Event) : list Event :=
  match s with
  | Some (SymExit true) => EvForwardExit t v :: dtor ++ [EvThreadTerminated t v]
  | Some (SymExit false) => [EvForwardExit t v; EvProcessExit 0]
  | _ => []
  end.

(** The calls on the TLABs and on the main heap. *)
Definition heap_event (e : Event) : bool :=
  match e with
  | EvPoolMalloc _ _ _ | EvConstruct _ _ | EvUse _ _ | EvFindUnusedHeap _
  | EvClear _ _ | EvPoolFree _ _ | EvReleaseHeap _ => true
  | _ => false
  end.

(** The main heap and the TLABs are seen through the calls made on them.
    [heap_view] keeps the thread-local storage, the key, the blocks handed
    out and the calls on the heap objects, and forgets the rest (the
    pointers to the real functions, the packages, the other events). *)
Record HeapView := {
  hv_theTLAB : gmap tid addr;
  hv_theHeapKey : bool;
  hv_key_once : bool;
  hv_initializedTSD : bool;
  hv_specific : gmap tid addr;
  hv_pool_next : nat;
  hv_calls : list Event
}.

Definition heap_view (w : World) : HeapView :=
  {| hv_theTLAB := theTLAB w;
     hv_theHeapKey := theHeapKey w;
     hv_key_once := key_once w;
     hv_initializedTSD := initializedTSD w;
     hv_specific := specific w;
     hv_pool_next := pool_next w;
     hv_calls := filter (fun e => heap_event e = true) (trace w) |}.

(** A run that only depends on, and only changes, what [heap_view] keeps. *)
Definition respects {A} (m : M A) : Prop :=
  forall w w',
    heap_view w = heap_view w' ->
    fst (m w) = fst (m w') /\ heap_view (snd (m w)) = heap_view (snd (m w')).

(** The lease comes before every construction of a TLAB of thread [t]. *)
Definition lease_before_construction (evs : list Event) (t : tid) : Prop :=
  forall j h,
    evs !! j = Some (EvConstruct t h) ->
    exists i, (i < j)%nat /\ evs !! i = Some (EvFindUnusedHeap t).

(** The storage of the launch package in block [n] has been given back. *)
Definition package_freed (w : World) (n : nat) : Prop := pairs w !! n = None.

(** A failed registration of the key stops the process: [getCustomHeap]
    does not return. *)
Definition registration_failure_fatal (P : Platform) (w : World) (t : tid) : Prop :=
  key_create_ok P = false ->
  initializedTSD w = false ->
  key_once w = false ->
  is_returned (fst (getCustomHeap_keyed P t w)) = false.

(** ** A program: the main thread creates two threads

    Function 0 uses the allocator twice and returns its argument plus
    one; function 1 does the same and then, instead of returning, calls
    [pthread_exit] with that value. *)

Definition w_boot : World :=
  Build_World ∅ false false false ∅ false None None false 0 0 ∅ [] [].

Definition demo_code (f : threadFunctionType) (arg : Z) : Body :=
  match f with
  | O => {| steps := [UseHeap; UseHeap]; retval := arg + 1 |}
  | S O => {| steps := [UseHeap; UseHeap; CallPthreadExit (arg + 1); UseHeap];
              retval := 0 |}
  | _ => {| steps := []; retval := 0 |}
  end.

Definition demo_dlsym (s : string) : option Symbol :=
  if String.eqb s "pthread_exit" then Some (SymExit true)
  else if String.eqb s "pthread_create" then Some (SymCreate (fun _ _ _ _ => 0))
  else None.

Definition linux_inline : Platform :=
  {| variant := Inline; linux := true; ndebug := false;
     sizeof_TheCustomHeapType := 100;
     key_create_ok := true; dlsym_next := demo_dlsym; code := demo_code |}.

Definition linux_keyed : Platform :=
  {| variant := Keyed; linux := true; ndebug := false;
     sizeof_TheCustomHeapType := 100;
     key_create_ok := true; dlsym_next := demo_dlsym; code := demo_code |}.

Definition linux_keyed_nokey : Platform :=
  {| variant := Keyed; linux := true; ndebug := false;
     sizeof_TheCustomHeapType := 100;
     key_create_ok := false; dlsym_next := demo_dlsym; code := demo_code |}.

(** The main thread, 0, has called [pthread_create] twice: block 0 holds
    function 0 with argument 5, block 1 holds function 1 with argument 5. *)
Definition two_created (P : Platform) : World :=
  snd ((pthread_create P 10 0 0%nat 5 0%nat ;;
        pthread_create P 11 0 1%nat 5 0%nat) w_boot).

(** Platforms on which the lookup of the real functions goes another way:
    the real [pthread_exit] returns, no real function is found, the real
    [pthread_create] fails with [EAGAIN]. *)
Definition returning_dlsym (s : string) : option Symbol :=
  if String.eqb s "pthread_exit" then Some (SymExit false) else demo_dlsym s.

Definition failing_dlsym (s : string) : option Symbol :=
  if String.eqb s "pthread_create" then Some (SymCreate (fun _ _ _ _ => 11))
  else demo_dlsym s.

Definition linux_inline_returning : Platform :=
  {| variant := Inline; linux := true; ndebug := false;
     sizeof_TheCustomHeapType := 100;
     key_create_ok := true; dlsym_next := returning_dlsym; code := demo_code |}.

Definition linux_inline_nosym : Platform :=
  {| variant := Inline; linux := true; ndebug := false;
     sizeof_TheCustomHeapType := 100;
     key_create_ok := true; dlsym_next := fun _ => None; code := demo_code |}.

Definition linux_keyed_nothreads : Platform :=
  {| variant := Keyed; linux := true; ndebug := false;
     sizeof_TheCustomHeapType := 100;
     key_create_ok := true; dlsym_next := failing_dlsym; code := demo_code |}.

(** Thread 1 has called [getCustomHeap] once. *)
Definition one_tlab (P : Platform) : World := snd (getCustomHeap P 1 w_boot).

(** ** Reasoning about runs *)

Lemma World_eta (w : World) :
  Build_World (theTLAB w) (theHeapKey w) (key_once w) (initializedTSD w)
    (specific w) (create_t w) (real_pthread_create w) (real_pthread_exit w)
    (anyThreadCreated w) (pool_next w) (new_next w) (pairs w) (spawned w) (trace w) = w.
Proof. by destruct w. Qed.

(** Unfold the monad and reduce what the run decides. *)
Ltac mrun :=
  repeat (unfold mbind, M_MBind, M_bind, mret, M_MRet, M_ret, get, modify,
            emit, stop, assert;
          cbv beta iota).

(** Read a field of an updated world, without unfolding the world itself. *)
Ltac updated X :=
  lazymatch X with
  | set_theTLAB _ _ => idtac
  | set_theHeapKey _ _ => idtac
  | set_key_once _ _ => idtac
  | set_initializedTSD _ _ => idtac
  | set_specific _ _ => idtac
  | set_create_t _ _ => idtac
  | set_real_pthread_create _ _ => idtac
  | set_real_pthread_exit _ _ => idtac
  | set_anyThreadCreated _ _ => idtac
  | set_pool_next _ _ => idtac
  | store_pair _ _ _ => idtac
  | spawn _ _ _ => idtac
  | log _ _ => idtac
  | logs _ _ => idtac
  | Build_World _ _ _ _ _ _ _ _ _ _ _ _ _ _ => idtac
  end.

Ltac wread p X :=
  updated X;
  let r := eval cbn [theTLAB theHeapKey key_once initializedTSD specific create_t
                     real_pthread_create real_pthread_exit anyThreadCreated
                     pool_next new_next pairs spawned trace
                     set_theTLAB set_theHeapKey set_key_once set_initializedTSD
                     set_specific set_create_t set_real_pthread_create
                     set_real_pthread_exit set_anyThreadCreated set_pool_next
                     store_pair spawn log logs] in (p X) in
  change (p X) with r.

Ltac wsimpl :=
  repeat match goal with
  | |- context [theTLAB ?X] => wread theTLAB X
  | |- context [theHeapKey ?X] => wread theHeapKey X
  | |- context [key_once ?X] => wread key_once X
  | |- context [initializedTSD ?X] => wread initializedTSD X
  | |- context [specific ?X] => wread specific X
  | |- context [create_t ?X] => wread create_t X
  | |- context [real_pthread_create ?X] => wread real_pthread_create X
  | |- context [real_pthread_exit ?X] => wread real_pthread_exit X
  | |- context [anyThreadCreated ?X] => wread anyThreadCreated X
  | |- context [pool_next ?X] => wread pool_next X
  | |- context [new_next ?X] => wread new_next X
  | |- context [pairs ?X] => wread pairs X
  | |- context [spawned ?X] => wread spawned X
  | |- context [trace ?X] => wread trace X
  end.

(** Run as far as the state decides. *)
Ltac msimpl := repeat first [progress mrun | progress wsimpl].

Lemma bind_returned {A B} (m : M A) (k : A -> M B) w a w' :
  m w = (Returned a, w') -> (m ≫= k) w = k a w'.
Proof. intros H. mrun. by rewrite H. Qed.

Lemma bind_gone {A B} (m : M A) (k : A -> M B) w v w' :
  m w = (ThreadGone v, w') -> (m ≫= k) w = (ThreadGone v, w').
Proof. intros H. mrun. by rewrite H. Qed.

Lemma bind_assoc {A B C} (m : M A) (k : A -> M B) (k' : B -> M C) w :
  ((m ≫= k) ≫= k') w = (m ≫= (fun a => k a ≫= k')) w.
Proof. mrun. destruct (m w) as [[a| | | |] w1]; try done. Qed.

Lemma bind_ret {A B} (a : A) (k : A -> M B) w : (mret a ≫= k) w = k a w.
Proof. done. Qed.

Lemma bind_get {A B} (f : World -> A) (k : A -> M B) w :
  (get f ≫= k) w = k (f w) w.
Proof. done. Qed.

Lemma bind_modify {B} (g : World -> World) (k : unit -> M B) w :
  (modify g ≫= k) w = k tt (g w).
Proof. done. Qed.

Lemma new_events_app w w' evs :
  trace w' = trace w ++ evs -> new_events w w' = evs.
Proof. intros H. unfold new_events. rewrite H. by rewrite drop_app_length. Qed.

Lemma frame_refl w : frame w w.
Proof. by unfold frame. Qed.

Lemma frame_trans w1 w2 w3 : frame w1 w2 -> frame w2 w3 -> frame w1 w3.
Proof. unfold frame. intros (?&?&?&?&?&?&?) (?&?&?&?&?&?&?). repeat split; congruence. Qed.

Lemma frame_logs evs w : frame w (logs evs w).
Proof. by unfold frame. Qed.

Lemma logs_logs a b w : logs b (logs a w) = logs (a ++ b) w.
Proof. unfold logs; cbn. by rewrite app_assoc. Qed.

Lemma logs_nil w : logs [] w = w.
Proof. unfold logs. rewrite app_nil_r. apply World_eta. Qed.

Section Storage.

Variable P : Platform.

(** *** The inline variant *)

Lemma getCustomHeap_inline_hit w t h :
  theTLAB w !! t = Some h ->
  getCustomHeap_inline t w = (Returned h, w).
Proof.
  intros H. unfold getCustomHeap_inline. mrun. rewrite H. mrun. wsimpl.
  unfold set_theTLAB. rewrite insert_id by done. by rewrite H, World_eta.
Qed.

Lemma set_theTLAB_twice f g w :
  set_theTLAB f (set_theTLAB g w) = set_theTLAB (fun m => f (g m)) w.
Proof. done. Qed.

Lemma getCustomHeap_inline_miss w t :
  theTLAB w !! t = None ->
  getCustomHeap_inline t w =
    (Returned (TlabBuffer t),
     set_theTLAB <[t := TlabBuffer t]> (log (EvConstruct t (TlabBuffer t)) w)).
Proof.
  intros H. unfold getCustomHeap_inline. mrun. rewrite H.
  unfold initializeCustomHeap_inline, TheCustomHeapType_ctor. mrun. wsimpl.
  rewrite lookup_insert_eq. cbn [default]. f_equal.
  unfold set_theTLAB at 1. wsimpl. by rewrite insert_insert_eq.
Qed.

(** *** The keyed variant *)

Lemma initTSD_run w : initTSD P w = (Returned tt, tsd_done P w).
Proof.
  unfold initTSD, pthread_once, make_heap_key, pthread_key_create, tsd_done,
    key_after_init, once_after_init.
  destruct w as [a k o i s c rc re f pn nn ps sp tr]. mrun. wsimpl.
  destruct i, o; mrun; wsimpl; try done.
  destruct (key_create_ok P); mrun; wsimpl; done.
Qed.

Lemma tsd_done_idem w : initializedTSD w = true -> tsd_done P w = w.
Proof.
  intros H. unfold tsd_done, key_after_init, once_after_init. rewrite H.
  destruct w; cbn in *. by subst.
Qed.

Lemma getCustomHeap_keyed_hit w t h :
  specific w !! t = Some h ->
  getCustomHeap_keyed P t w = (Returned h, tsd_done P w).
Proof.
  intros Hs. unfold getCustomHeap_keyed.
  rewrite (bind_returned _ _ _ _ _ (initTSD_run w)).
  unfold pthread_getspecific, tsd_done. msimpl. by rewrite Hs.
Qed.

Lemma getCustomHeap_keyed_miss w t :
  specific w !! t = None ->
  getCustomHeap_keyed P t w =
    (Returned (PoolBlock (pool_next w)), keyed_fresh P t (tsd_done P w)).
Proof.
  intros Hs. unfold getCustomHeap_keyed.
  rewrite (bind_returned _ _ _ _ _ (initTSD_run w)).
  unfold initializeCustomHeap_keyed, pthread_getspecific, pthread_setspecific,
    main_malloc, TheCustomHeapType_ctor, c_assert, keyed_fresh, tsd_done.
  msimpl. rewrite Hs. msimpl. rewrite Hs.
  rewrite bool_decide_eq_true_2 by done.
  destruct (ndebug P); by msimpl.
Qed.

End Storage.

Section Teardown.

Variable P : Platform.

(** *** Both variants at once *)

Lemma tls_value_None_slot w t : tls_value P w t = None -> slot P w t = None.
Proof. unfold tls_value, slot. by destruct (variant P). Qed.

Lemma bound_registration_ok w t h : bound P w t h -> registration_ok P w.
Proof.
  unfold bound, registration_ok, key_after_init. destruct (variant P); [done|].
  intros (-> & -> & _) _. done.
Qed.

(** [registration_ok] in terms of the code: in the keyed build, the key is
    registered when [initTSD] has run. *)
Lemma registration_ok_initTSD w :
  registration_ok P w <->
  (variant P = Keyed -> theHeapKey (snd (initTSD P w)) = true).
Proof.
  unfold registration_ok. rewrite initTSD_run. cbn [snd]. unfold tsd_done.
  by wsimpl.
Qed.

Lemma bound_slot w t h : bound P w t h -> slot P w t = Some h.
Proof.
  unfold bound, slot. destruct (variant P); [done|]. by intros (_ & _ & ->).
Qed.

Lemma bound_settled w t h : bound P w t h -> settled P w t h.
Proof.
  unfold bound, settled. destruct (variant P); [done|]. by intros (? & _ & ?).
Qed.

Lemma bound_logs w t h evs : bound P w t h -> bound P (logs evs w) t h.
Proof. unfold bound. by destruct (variant P). Qed.

Lemma registration_ok_logs w evs : registration_ok P w -> registration_ok P (logs evs w).
Proof. done. Qed.

Lemma setup_events_is_setup w t : Forall (fun e => is_setup e = true) (setup_events P w t).
Proof.
  unfold setup_events, construct_events.
  destruct (slot P w t); [constructor|].
  destruct (variant P); repeat constructor.
Qed.

(** [getCustomHeap] on a thread that has its TLAB: the TLAB, and nothing
    changes. *)
Lemma getCustomHeap_bound w t h :
  bound P w t h -> getCustomHeap P t w = (Returned h, w).
Proof.
  unfold bound, getCustomHeap. destruct (variant P).
  - apply getCustomHeap_inline_hit.
  - intros (Hi & Hk & Hs).
    by rewrite (getCustomHeap_keyed_hit P w t h), tsd_done_idem.
Qed.

(** The same on a thread that finds its TLAB under a key that is not this
    file's. *)
Lemma getCustomHeap_settled w t h :
  settled P w t h -> getCustomHeap P t w = (Returned h, w).
Proof.
  unfold settled, getCustomHeap. destruct (variant P).
  - apply getCustomHeap_inline_hit.
  - intros (Hi & Hs).
    by rewrite (getCustomHeap_keyed_hit P w t h), tsd_done_idem.
Qed.

(** [getCustomHeap] in any state: it returns, with the TLAB it found or
    the one it has constructed. *)
Lemma getCustomHeap_spec w t :
  exists w',
    getCustomHeap P t w = (Returned (tlab_found P w t), w') /\
    trace w' = trace w ++ setup_events P w t /\
    frame w w' /\
    (registration_ok P w -> bound P w' t (tlab_found P w t)).
Proof.
  unfold getCustomHeap, tlab_found, setup_events, slot, fresh_tlab,
    construct_events, registration_ok, bound, frame.
  destruct (variant P) eqn:Hv.
  - destruct (theTLAB w !! t) as [h|] eqn:Hs.
    + exists w. rewrite (getCustomHeap_inline_hit w t h Hs). cbn [default].
      by rewrite app_nil_r.
    + eexists. rewrite (getCustomHeap_inline_miss w t Hs). cbn [default].
      split; [done|]. wsimpl. by rewrite lookup_insert_eq.
  - destruct (specific w !! t) as [h|] eqn:Hs.
    + eexists. rewrite (getCustomHeap_keyed_hit P w t h Hs). cbn [default].
      split; [done|]. unfold tsd_done. wsimpl. rewrite app_nil_r.
      split; [done|]. split; [done|]. intros Hreg. by rewrite Hreg.
    + eexists. rewrite (getCustomHeap_keyed_miss P w t Hs).
      cbn [default]. split; [done|].
      unfold keyed_fresh, tsd_done. wsimpl.
      rewrite <- app_assoc, lookup_insert_eq.
      split; [done|]. split; [done|]. intros Hreg. by rewrite Hreg.
Qed.

Lemma getCustomHeap_settles w t :
  exists w',
    getCustomHeap P t w = (Returned (tlab_found P w t), w') /\
    settled P w' t (tlab_found P w t).
Proof.
  unfold getCustomHeap, tlab_found, slot, fresh_tlab, settled.
  destruct (variant P) eqn:Hv.
  - destruct (theTLAB w !! t) as [h|] eqn:Hs.
    + exists w. by rewrite (getCustomHeap_inline_hit w t h Hs).
    + eexists. rewrite (getCustomHeap_inline_miss w t Hs). cbn [default].
      split; [done|]. wsimpl. by rewrite lookup_insert_eq.
  - destruct (specific w !! t) as [h|] eqn:Hs.
    + eexists. rewrite (getCustomHeap_keyed_hit P w t h Hs). cbn [default].
      split; [done|]. unfold tsd_done. by wsimpl.
    + eexists. rewrite (getCustomHeap_keyed_miss P w t Hs). cbn [default].
      split; [done|]. unfold keyed_fresh, tsd_done. wsimpl.
      by rewrite lookup_insert_eq.
Qed.

End Teardown.

Section Lifecycle.

Variable P : Platform.

(** *** exitRoutine *)

Lemma exitRoutine_spec w t :
  exists w',
    exitRoutine P t w = (Returned tt, w') /\
    trace w' = trace w ++ setup_events P w t
                 ++ [EvClear t (tlab_found P w t); EvReleaseHeap t] /\
    frame w w' /\
    (registration_ok P w -> bound P w' t (tlab_found P w t)).
Proof.
  destruct (getCustomHeap_spec P w t) as (w1 & Hrun & Htr & Hfr & Hb).
  exists (logs [EvClear t (tlab_found P w t); EvReleaseHeap t] w1).
  unfold exitRoutine. rewrite (bind_returned _ _ _ _ _ Hrun).
  unfold heap_clear, releaseHeap. mrun. unfold log. rewrite logs_logs. cbn [app].
  split; [done|]. split; [|split].
  - wsimpl. by rewrite Htr, <- app_assoc.
  - eapply frame_trans; [done | apply frame_logs].
  - intros Hr. by apply bound_logs, Hb.
Qed.

Lemma exitRoutine_bound w t h :
  bound P w t h ->
  exitRoutine P t w = (Returned tt, logs [EvClear t h; EvReleaseHeap t] w).
Proof.
  intros Hb. unfold exitRoutine.
  rewrite (bind_returned _ _ _ _ _ (getCustomHeap_bound P w t h Hb)).
  unfold heap_clear, releaseHeap. mrun. unfold log. by rewrite logs_logs.
Qed.

(** *** The end of the thread on the platform's side *)

Lemma run_tsd_destructors_spec w t :
  exists w',
    run_tsd_destructors P t w = (Returned tt, w') /\
    trace w' = trace w ++ dtor_events P w t /\
    frame w w'.
Proof.
  unfold run_tsd_destructors, dtor_events, deleteThatHeap, heap_clear, main_free,
    releaseHeap, frame.
  destruct (variant P).
  - exists w. mrun. by rewrite app_nil_r.
  - mrun. destruct (theHeapKey w); mrun.
    + destruct (specific w !! t) as [p|]; mrun.
      * eexists. split; [done|]. wsimpl. by rewrite <- !app_assoc.
      * exists w. by rewrite app_nil_r.
    + exists w. by rewrite app_nil_r.
Qed.

Lemma libc_thread_exit_spec {A} w t v :
  exists w',
    libc_thread_exit (A := A) P t v w = (ThreadGone v, w') /\
    trace w' = trace w ++ dtor_events P w t ++ [EvThreadTerminated t v] /\
    frame w w'.
Proof.
  destruct (run_tsd_destructors_spec w t) as (w1 & Hrun & Htr & Hfr).
  exists (log (EvThreadTerminated t v) w1).
  unfold libc_thread_exit. rewrite (bind_returned _ _ _ _ _ Hrun). mrun.
  split; [done|]. split.
  - wsimpl. by rewrite Htr, <- app_assoc.
  - eapply frame_trans; [done | apply frame_logs].
Qed.

(** *** pthread_exit *)

Lemma init_real_pthread_exit_run w :
  init_real_pthread_exit P w =
    (Returned (resolved_exit P w), set_real_pthread_exit (Some (resolved_exit P w)) w).
Proof.
  unfold init_real_pthread_exit, resolved_exit. mrun.
  destruct (real_pthread_exit w) as [s|] eqn:H; mrun; [|done].
  unfold set_real_pthread_exit. by rewrite <- H, World_eta.
Qed.

Lemma forward_run w t v s :
  exists w',
    (call_exit_function P s v t ;; exit_ 0) w = (forward_outcome s v, w') /\
    trace w' = trace w ++ forward_events s t v (dtor_events P w t).
Proof.
  unfold call_exit_function, exit_, forward_outcome, forward_events.
  destruct s as [[rc|[|]]|].
  - exists w. mrun. by rewrite app_nil_r.
  - destruct (libc_thread_exit_spec (A := unit) (log (EvForwardExit t v) w) t v)
      as (w1 & Hrun & Htr & _).
    exists w1. mrun. rewrite Hrun. split; [done|].
    rewrite Htr. wsimpl. by rewrite <- app_assoc.
  - eexists. mrun. split; [done|]. wsimpl. by rewrite <- app_assoc.
  - exists w. mrun. by rewrite app_nil_r.
Qed.

Lemma pthread_exit_spec w t v :
  exists w1 w',
    exitRoutine P t (set_real_pthread_exit (Some (resolved_exit P w)) w)
      = (Returned tt, w1) /\
    pthread_exit P v t w = (forward_outcome (resolved_exit P w) v, w') /\
    trace w' = trace w ++ setup_events P w t
                 ++ [EvClear t (tlab_found P w t); EvReleaseHeap t]
                 ++ forward_events (resolved_exit P w) t v (dtor_events P w1 t) /\
    (registration_ok P w -> bound P w1 t (tlab_found P w t)).
Proof.
  set (w0 := set_real_pthread_exit (Some (resolved_exit P w)) w).
  destruct (exitRoutine_spec w0 t) as (w1 & Hrun & Htr & Hfr & Hb).
  destruct (forward_run w1 t v (resolved_exit P w)) as (w' & Hfw & Htr').
  exists w1, w'. split; [done|]. split; [|split].
  - unfold pthread_exit.
    rewrite (bind_returned _ _ _ _ _ (init_real_pthread_exit_run w)).
    fold w0. rewrite (bind_returned _ _ _ _ _ Hrun). exact Hfw.
  - rewrite Htr', Htr. by rewrite <- !app_assoc.
  - exact Hb.
Qed.

End Lifecycle.

Section Wrapper.

Variable P : Platform.

(** *** Thread bodies that only use the allocator *)

Lemma run_uses_spec t l :
  only_uses l ->
  forall w, exists evs w',
    run_steps P t l w = (Returned tt, w') /\
    trace w' = trace w ++ evs /\
    Forall (fun e => is_body e = true) evs /\
    frame w w'.
Proof.
  induction 1 as [|s l -> _ IH]; intros w.
  - exists [], w. cbn. rewrite app_nil_r. eauto using frame_refl.
  - destruct (getCustomHeap_spec P w t) as (w1 & Hrun & Htr & Hfr & _).
    set (h := tlab_found P w t) in *.
    destruct (IH (log (EvUse t h) w1)) as (evs & w' & Hrun' & Htr' & Hall & Hfr').
    exists (setup_events P w t ++ EvUse t h :: evs), w'.
    cbn [run_steps run_step].
    rewrite bind_assoc, (bind_returned _ _ _ _ _ Hrun). mrun.
    split; [exact Hrun'|]. split; [|split].
    + rewrite Htr'. cbn. rewrite Htr, <- !app_assoc. done.
    + apply Forall_app. split.
      * eapply Forall_impl; [apply setup_events_is_setup|].
        intros []; done.
      * by constructor.
    + eapply frame_trans; [done|]. eapply frame_trans; [apply frame_logs | done].
Qed.

Lemma run_uses_bound t l w h :
  only_uses l ->
  bound P w t h ->
  run_steps P t l w = (Returned tt, logs (replicate (length l) (EvUse t h)) w).
Proof.
  intros Hl. revert w. induction Hl as [|s l -> _ IH]; intros w Hb.
  - cbn. by rewrite logs_nil.
  - cbn [run_steps run_step].
    rewrite bind_assoc, (bind_returned _ _ _ _ _ (getCustomHeap_bound P w t h Hb)).
    mrun. rewrite IH by (by apply bound_logs). unfold log. by rewrite logs_logs.
Qed.

Lemma load_pair_run w n z :
  pairs w !! n = Some z -> load_pair (NewBlock n) w = (Returned z, w).
Proof. intros H. unfold load_pair. mrun. by rewrite H. Qed.

(** *** startMeUp, when the thread body returns *)

Lemma startMeUp_spec w t n f arg :
  pairs w !! n = Some (f, arg) ->
  only_uses (steps (code P f arg)) ->
  exists body setup h w',
    startMeUp P (NewBlock n) t w = (Returned (retval (code P f arg)), w') /\
    trace w' = trace w ++ setup_events P w t
                 ++ [EvFindUnusedHeap t; EvCallEntry t f arg] ++ body
                 ++ [EvEntryReturned t (retval (code P f arg))] ++ setup
                 ++ [EvClear t h; EvReleaseHeap t] /\
    Forall (fun e => is_body e = true) body /\
    Forall (fun e => is_setup e = true) setup /\
    frame w w'.
Proof.
  intros Hp Hu.
  destruct (getCustomHeap_spec P w t) as (w1 & Hrun1 & Htr1 & Hfr1 & _).
  set (w2 := logs [EvFindUnusedHeap t; EvCallEntry t f arg] w1).
  destruct (run_uses_spec t _ Hu w2) as (body & w3 & Hrun3 & Htr3 & Hbody & Hfr3).
  set (v := retval (code P f arg)) in *.
  destruct (exitRoutine_spec P (log (EvEntryReturned t v) w3) t)
    as (w' & Hrun4 & Htr4 & Hfr4 & _).
  exists body, (setup_events P (log (EvEntryReturned t v) w3) t),
    (tlab_found P (log (EvEntryReturned t v) w3) t), w'.
  assert (Hp1 : pairs w1 !! n = Some (f, arg)).
  { destruct Hfr1 as (_&_&_&_&_&->&_). done. }
  split; [|split; [|split; [|split]]].
  - unfold startMeUp. rewrite (bind_returned _ _ _ _ _ Hrun1).
    unfold findUnusedHeap. mrun. rewrite (load_pair_run _ n (f, arg)) by done.
    cbn [fst snd]. unfold call_entry. mrun. unfold log at 1 2. rewrite logs_logs.
    cbn [app]. fold w2. rewrite Hrun3. fold v. rewrite Hrun4. done.
  - rewrite Htr4. cbn [log logs trace]. rewrite Htr3. subst w2. cbn [logs trace].
    rewrite Htr1, <- !app_assoc. done.
  - done.
  - apply setup_events_is_setup.
  - eapply frame_trans; [done|]. eapply frame_trans; [apply frame_logs|].
    eapply frame_trans; [done|]. eapply frame_trans; [apply frame_logs|done].
Qed.

(** The same, when the registration of the key has not failed: the thread
    keeps the TLAB of the first [getCustomHeap]. *)
Lemma startMeUp_registered w t n f arg :
  registration_ok P w ->
  pairs w !! n = Some (f, arg) ->
  only_uses (steps (code P f arg)) ->
  exists w1,
    getCustomHeap P t w = (Returned (tlab_found P w t), w1) /\
    trace w1 = trace w ++ setup_events P w t /\
    bound P w1 t (tlab_found P w t) /\
    startMeUp P (NewBlock n) t w =
      (Returned (retval (code P f arg)),
       logs ([EvFindUnusedHeap t; EvCallEntry t f arg]
             ++ replicate (length (steps (code P f arg)))
                  (EvUse t (tlab_found P w t))
             ++ [EvEntryReturned t (retval (code P f arg));
                 EvClear t (tlab_found P w t); EvReleaseHeap t]) w1).
Proof.
  intros Hr Hp Hu.
  destruct (getCustomHeap_spec P w t) as (w1 & Hrun1 & Htr1 & Hfr1 & Hb).
  specialize (Hb Hr). set (h := tlab_found P w t) in *.
  exists w1. split; [done|]. split; [done|]. split; [done|].
  assert (Hp1 : pairs w1 !! n = Some (f, arg)).
  { destruct Hfr1 as (_&_&_&_&_&->&_). done. }
  unfold startMeUp. rewrite (bind_returned _ _ _ _ _ Hrun1).
  unfold findUnusedHeap. mrun. rewrite (load_pair_run _ n (f, arg)) by done.
  cbn [fst snd]. unfold call_entry. mrun. unfold log at 1 2. rewrite logs_logs.
  cbn [app].
  rewrite (run_uses_bound t _ _ h Hu) by (by apply bound_logs).
  unfold log. rewrite !logs_logs.
  rewrite (exitRoutine_bound P _ t h) by (by apply bound_logs).
  rewrite logs_logs. cbn [app]. rewrite <- !app_assoc. done.
Qed.

End Wrapper.

(** ** Counting calls in a log *)

Lemma count_release_app t a b :
  count_release t (a ++ b) = (count_release t a + count_release t b)%nat.
Proof. unfold count_release. by rewrite filter_app, length_app. Qed.

Lemma count_find_app t a b :
  count_find t (a ++ b) = (count_find t a + count_find t b)%nat.
Proof. unfold count_find. by rewrite filter_app, length_app. Qed.

Lemma count_release_body t evs :
  Forall (fun e => is_body e = true) evs -> count_release t evs = 0%nat.
Proof.
  unfold count_release. induction 1 as [|e evs He _ IH]; [done|].
  rewrite filter_cons_False; [done|]. intros ->. done.
Qed.

Lemma count_find_body t evs :
  Forall (fun e => is_body e = true) evs -> count_find t evs = 0%nat.
Proof.
  unfold count_find. induction 1 as [|e evs He _ IH]; [done|].
  rewrite filter_cons_False; [done|]. intros ->. done.
Qed.

Lemma is_setup_is_body evs :
  Forall (fun e => is_setup e = true) evs -> Forall (fun e => is_body e = true) evs.
Proof. intros H. eapply Forall_impl; [exact H|]. by intros []. Qed.

Lemma replicate_use_is_body k t h :
  Forall (fun e => is_body e = true) (replicate k (EvUse t h)).
Proof. induction k; by constructor. Qed.

Section ThreadLife.

Variable P : Platform.

Lemma dtor_events_bound w t h :
  bound P w t h -> dtor_events P w t = key_teardown P t h.
Proof.
  unfold bound, dtor_events, key_teardown. destruct (variant P); [done|].
  by intros (_ & -> & ->).
Qed.

(** The whole life of an intercepted thread whose body returns. *)
Lemma thread_main_registered w t n f arg :
  registration_ok P w ->
  pairs w !! n = Some (f, arg) ->
  only_uses (steps (code P f arg)) ->
  exists w',
    thread_main P (NewBlock n) t w = (ThreadGone (retval (code P f arg)), w') /\
    new_events w w' =
      setup_events P w t
      ++ [EvFindUnusedHeap t; EvCallEntry t f arg]
      ++ replicate (length (steps (code P f arg))) (EvUse t (tlab_found P w t))
      ++ [EvEntryReturned t (retval (code P f arg));
          EvClear t (tlab_found P w t); EvReleaseHeap t]
      ++ key_teardown P t (tlab_found P w t)
      ++ [EvThreadTerminated t (retval (code P f arg))].
Proof.
  intros Hr Hp Hu.
  destruct (startMeUp_registered P w t n f arg Hr Hp Hu)
    as (w1 & _ & Htr1 & Hb & Hrun).
  set (h := tlab_found P w t) in *. set (v := retval (code P f arg)) in *.
  set (mid := _ ++ _) in Hrun.
  destruct (libc_thread_exit_spec (A := Z) P (logs mid w1) t v)
    as (w' & Hexit & Htr' & _).
  exists w'. unfold thread_main. rewrite (bind_returned _ _ _ _ _ Hrun).
  split; [done|]. apply new_events_app.
  rewrite Htr', (dtor_events_bound _ t h) by (by apply bound_logs).
  cbn [logs trace]. rewrite Htr1. subst mid. by rewrite <- !app_assoc.
Qed.

End ThreadLife.

(** ** Properties of the thread lifecycle *)

Section Claims.

Variable P : Platform.

Lemma get_many_settled k w t h :
  settled P w t h -> get_many P k t w = (Returned (replicate k h), w).
Proof.
  intros Hb. induction k as [|k IH]; [done|].
  cbn [get_many replicate].
  rewrite (bind_returned _ _ _ _ _ (getCustomHeap_settled P w t h Hb)).
  by rewrite (bind_returned _ _ _ _ _ IH).
Qed.

(** C3: [getCustomHeap] is idempotent within a thread, in the inline and in
    the keyed variant, in every state of the storage.  A call returns a
    TLAB [h]; when the thread had none, this call has constructed it (the
    log gains exactly the construction, which ends in the constructor
    running at [h]); and any number of further calls return the same [h]
    and change nothing. *)
Theorem getCustomHeap_idempotent (w : World) (t : tid) (k : nat) :
  exists h w1,
    getCustomHeap P t w = (Returned h, w1) /\
    (tls_value P w t = None ->
       new_events w w1 = construct_events P w t /\
       last (new_events w w1) = Some (EvConstruct t h)) /\
    get_many P k t w1 = (Returned (replicate k h), w1).
Proof.
  destruct (getCustomHeap_spec P w t) as (w1 & Hrun & Htr & _ & _).
  destruct (getCustomHeap_settles P w t) as (w1' & Hrun' & Hs).
  assert (w1' = w1) as -> by congruence.
  exists (tlab_found P w t), w1. split; [done|]. split.
  - intros Hnone. apply tls_value_None_slot in Hnone.
    rewrite (new_events_app _ _ _ Htr).
    unfold setup_events, tlab_found. rewrite Hnone. split; [done|].
    unfold construct_events, fresh_tlab. by destruct (variant P).
  - by apply get_many_settled.
Qed.

(** C4: when the caller's entry function returns [v], the wrapper returns
    [v] and the thread ends with result [v]; whatever [v] is, the wrapper
    has cleared the TLAB and released the heap after the entry function
    returned. *)
Theorem startMeUp_preserves_result (w : World) (t : tid) (n : nat)
    (f : threadFunctionType) (arg : Z) :
  pairs w !! n = Some (f, arg) ->
  only_uses (steps (code P f arg)) ->
  let v := retval (code P f arg) in
  exists pre setup h w' w'',
    startMeUp P (NewBlock n) t w = (Returned v, w') /\
    thread_main P (NewBlock n) t w = (ThreadGone v, w'') /\
    new_events w w' =
      pre ++ [EvEntryReturned t v] ++ setup ++ [EvClear t h; EvReleaseHeap t] /\
    Forall (fun e => is_setup e = true) setup.
Proof.
  intros Hp Hu v.
  destruct (startMeUp_spec P w t n f arg Hp Hu)
    as (body & setup & h & w' & Hrun & Htr & _ & Hsetup & _).
  destruct (libc_thread_exit_spec (A := Z) P w' t v) as (w'' & Hexit & _).
  exists (setup_events P w t ++ [EvFindUnusedHeap t; EvCallEntry t f arg] ++ body),
    setup, h, w', w''.
  split; [done|]. split; [|split; [|done]].
  - unfold thread_main. by rewrite (bind_returned _ _ _ _ _ Hrun).
  - apply new_events_app. rewrite Htr. by rewrite <- !app_assoc.
Qed.

(** C5: the interposed [pthread_exit] never returns to its caller, and the
    call through [real_pthread_exit] comes after the teardown: the log gains
    the construction of the TLAB if the thread had none, then [clear] and
    [releaseHeap], and only then what the forwarding adds. *)
Theorem pthread_exit_teardown_then_forward (w : World) (t : tid) (v : Z) :
  exists o w' h dtor,
    pthread_exit P v t w = (o, w') /\
    is_returned o = false /\
    new_events w w' =
      setup_events P w t ++ [EvClear t h; EvReleaseHeap t]
      ++ forward_events (resolved_exit P w) t v dtor.
Proof.
  destruct (pthread_exit_spec P w t v) as (w1 & w' & _ & Hrun & Htr & _).
  exists (forward_outcome (resolved_exit P w) v), w', (tlab_found P w t),
    (dtor_events P w1 t).
  split; [done|]. split.
  - unfold forward_outcome. by destruct (resolved_exit P w) as [[|[|]]|].
  - by apply new_events_app.
Qed.

Lemma count_find_forward s t v dtor :
  count_find t dtor = 0%nat -> count_find t (forward_events s t v dtor) = 0%nat.
Proof.
  intros H. unfold forward_events. destruct s as [[|[|]]|]; try done.
  change (EvForwardExit t v :: dtor ++ [EvThreadTerminated t v])
    with ([EvForwardExit t v] ++ dtor ++ [EvThreadTerminated t v]).
  rewrite !count_find_app, H. done.
Qed.

Lemma count_find_dtor w t : count_find t (dtor_events P w t) = 0%nat.
Proof.
  unfold dtor_events. destruct (variant P); [done|].
  destruct (theHeapKey w); [|done]. by destruct (specific w !! t).
Qed.

(** C10: the teardown does not depend on earlier use.  When [pthread_exit]
    is called on a thread that has no TLAB and has never leased a heap, the
    teardown constructs a TLAB, clears it and calls [releaseHeap]; the
    thread still has not leased a heap. *)
Theorem pthread_exit_without_tlab (w : World) (t : tid) (v : Z) :
  tls_value P w t = None ->
  count_find t (trace w) = 0%nat ->
  exists o w' post,
    pthread_exit P v t w = (o, w') /\
    new_events w w' =
      construct_events P w t
      ++ [EvClear t (fresh_tlab P w t); EvReleaseHeap t] ++ post /\
    last (construct_events P w t) = Some (EvConstruct t (fresh_tlab P w t)) /\
    count_find t (trace w') = 0%nat.
Proof.
  intros Hnone Hfind. apply tls_value_None_slot in Hnone.
  destruct (pthread_exit_spec P w t v) as (w1 & w' & _ & Hrun & Htr & _).
  unfold setup_events, tlab_found in Htr. rewrite Hnone in Htr. cbn [default] in Htr.
  eexists _, w', _. split; [done|]. split; [by apply new_events_app|]. split.
  - unfold construct_events, fresh_tlab. by destruct (variant P).
  - rewrite Htr, !count_find_app, Hfind.
    rewrite count_find_forward by apply count_find_dtor.
    rewrite count_find_body; [done|].
    unfold construct_events. destruct (variant P); repeat constructor.
Qed.

End Claims.

Section Creation.

Variable P : Platform.

Lemma init_real_pthread_create_run w :
  init_real_pthread_create P w =
    (Returned (resolved_create P w),
     set_real_pthread_create (Some (resolved_create P w)) w).
Proof.
  unfold init_real_pthread_create, resolved_create. mrun.
  destruct (real_pthread_create w) as [s|] eqn:H; mrun; [|done].
  unfold set_real_pthread_create. by rewrite <- H, World_eta.
Qed.

(** The tail of [pthread_create], from the initialiser of
    [real_pthread_create] on. *)
Lemma pthread_create_tail w t thread attr f arg rc :
  resolved_create P w = Some (SymCreate rc) ->
  let args := NewBlock (new_next w) in
  exists w',
    (real ← init_real_pthread_create P;
     emit EvAnyThreadCreated;;
     modify (set_anyThreadCreated true);;
     args ← new_pair f arg t;
     result ← call_create_function real thread attr StartMeUp args t;
     mret result) w
      = (Returned (rc thread attr StartMeUp args), w') /\
    trace w' = trace w ++ [EvAnyThreadCreated; EvNewPair t args f arg;
                           EvRealCreate t thread attr StartMeUp args] /\
    pairs w' !! new_next w = Some (f, arg) /\
    anyThreadCreated w' = true /\
    spawned w' = spawned w ++
      (if rc thread attr StartMeUp args =? 0 then [(StartMeUp, args)] else []).
Proof.
  intros Hres args.
  rewrite (bind_returned _ _ _ _ _ (init_real_pthread_create_run w)).
  rewrite Hres. unfold new_pair, call_create_function. msimpl. fold args.
  destruct (rc thread attr StartMeUp args =? 0); msimpl.
  - eexists. split; [done|]. wsimpl.
    rewrite <- !app_assoc, lookup_insert_eq. done.
  - eexists. split; [done|]. wsimpl.
    rewrite <- !app_assoc, lookup_insert_eq. by rewrite app_nil_r.
Qed.

(** C9: the interposed [pthread_create] calls the real one with the thread
    handle and the attributes it was given, with [startMeUp] as start
    routine and the package of the caller's routine and argument as its
    argument; it returns what the real call returns; and
    [anyThreadCreated] is set before the real call. *)
Theorem pthread_create_forwards (w : World) (t : tid) (thread attr : Z)
    (f : threadFunctionType) (arg : Z) (rc : Z -> Z -> codeptr -> addr -> Z) :
  resolved_create P w = Some (SymCreate rc) ->
  let args := NewBlock (new_next w) in
  exists w',
    pthread_create P thread attr f arg t w
      = (Returned (rc thread attr StartMeUp args), w') /\
    new_events w w' =
      (if create_t w then [] else setup_events P w t)
      ++ [EvAnyThreadCreated; EvNewPair t args f arg;
          EvRealCreate t thread attr StartMeUp args] /\
    pairs w' !! new_next w = Some (f, arg) /\
    anyThreadCreated w' = true.
Proof.
  intros Hres args. unfold pthread_create. rewrite bind_get.
  destruct (create_t w) eqn:Hc.
  - rewrite bind_ret.
    destruct (pthread_create_tail w t thread attr f arg rc Hres)
      as (w' & Hrun & Htr & Hp & Hf & _).
    exists w'. split; [exact Hrun|]. split; [|done]. by apply new_events_app.
  - destruct (getCustomHeap_spec P w t) as (w1 & Hrun1 & Htr1 & Hfr1 & _).
    assert (Hres2 : resolved_create P (set_create_t true w1) = Some (SymCreate rc)).
    { unfold resolved_create in *. destruct Hfr1 as (_&Hr&_). wsimpl.
      by rewrite Hr. }
    destruct (pthread_create_tail _ t thread attr f arg rc Hres2)
      as (w' & Hrun & Htr & Hp & Hf & _).
    assert (Hn : new_next (set_create_t true w1) = new_next w).
    { wsimpl. by destruct Hfr1 as (_&_&_&_&->&_). }
    rewrite Hn in *. fold args in Hrun, Htr.
    exists w'. split; [|split; [|done]].
    + rewrite !bind_assoc, (bind_returned _ _ _ _ _ Hrun1), bind_modify.
      exact Hrun.
    + apply new_events_app. rewrite Htr. wsimpl. by rewrite Htr1, <- app_assoc.
Qed.

End Creation.

(** ** Runs that agree on the TLAB storage and on the main heap *)

Lemma respects_ret {A} (a : A) : respects (mret a).
Proof. by intros w w' H. Qed.

Lemma respects_stop {A} (o : Outcome A) : respects (stop o).
Proof. by intros w w' H. Qed.

Lemma respects_bind {A B} (m : M A) (k : A -> M B) :
  respects m -> (forall a, respects (k a)) -> respects (m ≫= k).
Proof.
  intros Hm Hk w w' H. destruct (Hm w w' H) as [Ho Hv]. mrun.
  destruct (m w) as [o1 w1], (m w') as [o2 w2]. cbn in Ho, Hv. subst o2.
  destruct o1; try done. by apply Hk.
Qed.

Lemma respects_get {A} (f : World -> A) :
  (forall w w', heap_view w = heap_view w' -> f w = f w') -> respects (get f).
Proof. intros Hf w w' H. mrun. cbn. by rewrite (Hf w w' H). Qed.

Lemma respects_modify (g : World -> World) :
  (forall w w', heap_view w = heap_view w' -> heap_view (g w) = heap_view (g w')) ->
  respects (modify g).
Proof. intros Hg w w' H. mrun. cbn. auto. Qed.

Lemma heap_view_logs evs evs' w w' :
  heap_view w = heap_view w' ->
  filter (fun e => heap_event e = true) evs
    = filter (fun e => heap_event e = true) evs' ->
  heap_view (logs evs w) = heap_view (logs evs' w').
Proof.
  intros H Hevs. unfold heap_view in *. wsimpl.
  injection H as H1 H2 H3 H4 H5 H6 H7. rewrite !filter_app. congruence.
Qed.

Lemma respects_emit e : respects (emit e).
Proof. intros w w' H. mrun. cbn. split; [done|]. by apply heap_view_logs. Qed.

(** Fields that [heap_view] keeps, and updates of them. *)
Ltac hv_field :=
  let H := fresh in
  intros ? ? H; unfold heap_view in *; wsimpl; injection H as ? ? ? ? ? ? ?;
  congruence.

Ltac resp :=
  repeat first
    [ apply respects_ret
    | apply respects_stop
    | apply respects_emit
    | apply respects_get; hv_field
    | apply respects_modify; hv_field
    | apply respects_bind; [|intros ?]
    | match goal with
      | |- respects (match ?x with _ => _ end) => destruct x
      | |- respects (assert ?b) => unfold assert; destruct b
      end ].

Section Simulation.

Variable P : Platform.

Lemma respects_getCustomHeap t : respects (getCustomHeap P t).
Proof.
  unfold getCustomHeap.
  destruct (variant P).
  - unfold getCustomHeap_inline, initializeCustomHeap_inline,
      TheCustomHeapType_ctor. resp.
  - unfold getCustomHeap_keyed, initTSD, pthread_once, make_heap_key,
      pthread_key_create, pthread_getspecific, initializeCustomHeap_keyed,
      pthread_setspecific, main_malloc, TheCustomHeapType_ctor, c_assert.
    resp.
Qed.

Lemma respects_exitRoutine t : respects (exitRoutine P t).
Proof.
  unfold exitRoutine, heap_clear, releaseHeap.
  apply respects_bind; [apply respects_getCustomHeap|]. intros h. resp.
Qed.

Lemma respects_libc_thread_exit {A} t v : respects (libc_thread_exit (A := A) P t v).
Proof.
  unfold libc_thread_exit, run_tsd_destructors, deleteThatHeap, heap_clear,
    main_free, releaseHeap.
  resp.
Qed.

Lemma respects_run_uses t l : only_uses l -> respects (run_steps P t l).
Proof.
  induction 1 as [|s l -> _ IH]; cbn [run_steps run_step]; [resp|].
  apply respects_bind; [|by intros].
  apply respects_bind; [apply respects_getCustomHeap|]. intros h. resp.
Qed.

End Simulation.

Section TwoExits.

Variable P : Platform.

Lemma run_steps_app t l1 l2 w :
  run_steps P t (l1 ++ l2) w = (run_steps P t l1 ;; run_steps P t l2) w.
Proof.
  revert w. induction l1 as [|s l1 IH]; intros w; [done|].
  cbn [app run_steps]. rewrite bind_assoc. mrun.
  destruct (run_step P t s w) as [[[]| | | |] w1]; by try apply IH.
Qed.

Lemma frame_resolved_exit w w' :
  frame w w' -> resolved_exit P w' = resolved_exit P w.
Proof. intros (_&_&H&_). unfold resolved_exit. by rewrite H. Qed.

(** The interposed [pthread_exit] when the real one is the C library's:
    teardown, then the end of the thread. *)
Lemma pthread_exit_libc w t v :
  resolved_exit P w = Some (SymExit true) ->
  pthread_exit P v t w =
    (exitRoutine P t ;; emit (EvForwardExit t v) ;; libc_thread_exit P t v)
      (set_real_pthread_exit (Some (Some (SymExit true))) w).
Proof.
  intros Hres. unfold pthread_exit.
  rewrite (bind_returned _ _ _ _ _ (init_real_pthread_exit_run P w)), Hres.
  unfold call_exit_function. mrun.
  destruct (exitRoutine P t _) as [[[]| | | |] w1]; try done.
  destruct (libc_thread_exit_spec (A := unit) P (log (EvForwardExit t v) w1) t v)
    as (w2 & Hrun & _).
  destruct (libc_thread_exit_spec (A := Z) P (log (EvForwardExit t v) w1) t v)
    as (w3 & Hrun' & _).
  unfold log in *. rewrite Hrun. done.
Qed.

(** C6: a thread body that returns [v] and a thread body that does the same
    and then calls the interposed [pthread_exit] with [v] are torn down
    alike.  Both threads end with result [v], and they leave the
    thread-local storage, the key, the main heap's blocks and the sequence
    of calls on the TLAB and on the main heap (use, [clear], [free],
    [findUnusedHeap], [releaseHeap]) in the same state. *)
Theorem both_exits_same_teardown (w : World) (t : tid) (n n' : nat)
    (f f' : threadFunctionType) (arg arg' v : Z) (rest : list Step) :
  pairs w !! n = Some (f, arg) ->
  pairs w !! n' = Some (f', arg') ->
  only_uses (steps (code P f arg)) ->
  retval (code P f arg) = v ->
  steps (code P f' arg') = steps (code P f arg) ++ CallPthreadExit v :: rest ->
  resolved_exit P w = Some (SymExit true) ->
  exists wr we,
    thread_main P (NewBlock n) t w = (ThreadGone v, wr) /\
    thread_main P (NewBlock n') t w = (ThreadGone v, we) /\
    heap_view wr = heap_view we.
Proof.
  intros Hp Hp' Hu Hv Hsteps Hres.
  destruct (getCustomHeap_spec P w t) as (w1 & Hrun1 & _ & Hfr1 & _).
  assert (Hp1 : pairs w1 !! n = Some (f, arg)).
  { destruct Hfr1 as (_&_&_&_&_&->&_). done. }
  assert (Hp1' : pairs w1 !! n' = Some (f', arg')).
  { destruct Hfr1 as (_&_&_&_&_&->&_). done. }
  set (wa := logs [EvFindUnusedHeap t; EvCallEntry t f arg] w1).
  set (wb := logs [EvFindUnusedHeap t; EvCallEntry t f' arg'] w1).
  assert (Hab : heap_view wa = heap_view wb) by (by apply heap_view_logs).
  destruct (run_uses_spec P t _ Hu wa) as (eva & wa1 & Hruna & _ & _ & Hfra).
  destruct (run_uses_spec P t _ Hu wb) as (evb & wb1 & Hrunb & _ & _ & Hfrb).
  assert (Hab1 : heap_view wa1 = heap_view wb1).
  { destruct (respects_run_uses P t _ Hu wa wb Hab) as [_ H].
    by rewrite Hruna, Hrunb in H. }
  (* the body returns *)
  set (wa2 := log (EvEntryReturned t v) wa1).
  destruct (exitRoutine_spec P wa2 t) as (wa3 & Hexa & _).
  destruct (libc_thread_exit_spec (A := Z) P wa3 t v) as (wr & Hgoa & _).
  (* the body calls pthread_exit *)
  set (wb2 := set_real_pthread_exit (Some (Some (SymExit true))) wb1).
  destruct (exitRoutine_spec P wb2 t) as (wb3 & Hexb & _).
  destruct (libc_thread_exit_spec (A := unit) P (log (EvForwardExit t v) wb3) t v)
    as (we & Hgob & _).
  assert (Hab2 : heap_view wa2 = heap_view wb2).
  { subst wa2 wb2. unfold log.
    rewrite <- (logs_nil (set_real_pthread_exit _ wb1)).
    apply heap_view_logs; [|done]. revert Hab1. unfold heap_view. by wsimpl. }
  assert (Hab3 : heap_view wa3 = heap_view wb3).
  { destruct (respects_exitRoutine P t wa2 wb2 Hab2) as [_ H].
    by rewrite Hexa, Hexb in H. }
  assert (Hfin : heap_view wr = heap_view we).
  { assert (H3 : heap_view wa3 = heap_view (log (EvForwardExit t v) wb3)).
    { rewrite <- (logs_nil wa3). by apply heap_view_logs. }
    destruct (respects_libc_thread_exit (A := unit) P t v _ _ H3) as [_ H].
    rewrite Hgob in H. cbn [snd] in H. rewrite <- H.
    destruct (libc_thread_exit_spec (A := unit) P wa3 t v) as (wr' & Hgoa' & _).
    rewrite Hgoa'. cbn [snd].
    revert Hgoa Hgoa'. unfold libc_thread_exit. mrun.
    destruct (run_tsd_destructors P t wa3) as [[[]| | | |] wx]; congruence. }
  exists wr, we. split; [|split; [|done]].
  - unfold thread_main, startMeUp.
    rewrite !bind_assoc, (bind_returned _ _ _ _ _ Hrun1).
    unfold findUnusedHeap. mrun. rewrite (load_pair_run _ n (f, arg)) by done.
    cbn [fst snd]. unfold call_entry. mrun. unfold log at 1 2. rewrite logs_logs.
    cbn [app]. fold wa. rewrite Hruna, Hv. fold wa2. rewrite Hexa. done.
  - unfold thread_main, startMeUp.
    rewrite !bind_assoc, (bind_returned _ _ _ _ _ Hrun1).
    unfold findUnusedHeap. mrun. rewrite (load_pair_run _ n' (f', arg')) by done.
    cbn [fst snd]. unfold call_entry. mrun. unfold log at 1 2. rewrite logs_logs.
    cbn [app]. fold wb. rewrite Hsteps, run_steps_app. mrun. rewrite Hrunb.
    cbn [run_steps run_step]. mrun.
    rewrite pthread_exit_libc; [|].
    + fold wb2. mrun. rewrite Hexb, Hgob. done.
    + rewrite (frame_resolved_exit w wb1); [done|].
      eapply frame_trans; [exact Hfr1|]. eapply frame_trans; [apply frame_logs|done].
Qed.

End TwoExits.

(** ** Where the code and the description part *)

Lemma count_release_cons t e l :
  count_release t (e :: l) =
    ((if decide (e = EvReleaseHeap t) then 1 else 0) + count_release t l)%nat.
Proof. unfold count_release. rewrite filter_cons. by destruct (decide _). Qed.

Section Divergences.

Variable P : Platform.

Lemma count_release_life t f arg k h v tail :
  count_release t
    ([EvFindUnusedHeap t; EvCallEntry t f arg] ++ replicate k (EvUse t h)
     ++ [EvEntryReturned t v; EvClear t h; EvReleaseHeap t] ++ tail)
  = S (count_release t tail).
Proof.
  rewrite !count_release_app.
  rewrite (count_release_body t (replicate _ _)) by apply replicate_use_is_body.
  rewrite !count_release_cons. repeat case_decide; done.
Qed.

(** C1 (keyed variant): a thread that runs its body and returns calls
    [releaseHeap] twice, once in [exitRoutine] and once in the destructor
    of the key, [deleteThatHeap]. *)
Theorem keyed_thread_releases_twice (w : World) (t : tid) (n : nat)
    (f : threadFunctionType) (arg : Z) :
  variant P = Keyed ->
  registration_ok P w ->
  pairs w !! n = Some (f, arg) ->
  only_uses (steps (code P f arg)) ->
  exists w',
    thread_main P (NewBlock n) t w = (ThreadGone (retval (code P f arg)), w') /\
    count_release t (new_events w w') = 2%nat.
Proof.
  intros Hv Hr Hp Hu.
  destruct (thread_main_registered P w t n f arg Hr Hp Hu) as (w' & Hrun & Hev).
  exists w'. split; [done|]. rewrite Hev.
  rewrite count_release_app.
  rewrite (count_release_body t (setup_events P w t))
    by apply is_setup_is_body, setup_events_is_setup.
  rewrite count_release_life. unfold key_teardown. rewrite Hv. cbn [app].
  rewrite !count_release_cons. repeat case_decide; done.
Qed.

(** In the inline variant the same thread calls [releaseHeap] once. *)
Lemma inline_thread_releases_once (w : World) (t : tid) (n : nat)
    (f : threadFunctionType) (arg : Z) :
  variant P = Inline ->
  pairs w !! n = Some (f, arg) ->
  only_uses (steps (code P f arg)) ->
  exists w',
    thread_main P (NewBlock n) t w = (ThreadGone (retval (code P f arg)), w') /\
    count_release t (new_events w w') = 1%nat.
Proof.
  intros Hv Hp Hu.
  assert (Hr : registration_ok P w) by (intros H; congruence).
  destruct (thread_main_registered P w t n f arg Hr Hp Hu) as (w' & Hrun & Hev).
  exists w'. split; [done|]. rewrite Hev.
  rewrite count_release_app.
  rewrite (count_release_body t (setup_events P w t))
    by apply is_setup_is_body, setup_events_is_setup.
  rewrite count_release_life. unfold key_teardown. rewrite Hv. cbn [app].
  rewrite !count_release_cons. repeat case_decide; done.
Qed.

(** C2, as the code has it: in the wrapper of a thread that has no TLAB yet,
    the construction of the TLAB completes first, then comes the lease
    ([findUnusedHeap]), then the call of the real entry function; [clear]
    and [releaseHeap] come after the entry function has returned, and
    before the wrapper returns and the platform ends the thread. *)
Theorem startMeUp_order (w : World) (t : tid) (n : nat)
    (f : threadFunctionType) (arg : Z) :
  tls_value P w t = None ->
  pairs w !! n = Some (f, arg) ->
  only_uses (steps (code P f arg)) ->
  let v := retval (code P f arg) in
  exists body setup h dtor w' w'',
    startMeUp P (NewBlock n) t w = (Returned v, w') /\
    new_events w w' =
      construct_events P w t
      ++ [EvFindUnusedHeap t; EvCallEntry t f arg] ++ body
      ++ [EvEntryReturned t v] ++ setup ++ [EvClear t h; EvReleaseHeap t] /\
    last (construct_events P w t) = Some (EvConstruct t (fresh_tlab P w t)) /\
    Forall (fun e => is_body e = true) body /\
    Forall (fun e => is_setup e = true) setup /\
    thread_main P (NewBlock n) t w = (ThreadGone v, w'') /\
    new_events w' w'' = dtor ++ [EvThreadTerminated t v].
Proof.
  intros Hnone Hp Hu v. apply tls_value_None_slot in Hnone.
  destruct (startMeUp_spec P w t n f arg Hp Hu)
    as (body & setup & h & w' & Hrun & Htr & Hbody & Hsetup & _).
  destruct (libc_thread_exit_spec (A := Z) P w' t v) as (w'' & Hexit & Htr' & _).
  exists body, setup, h, (dtor_events P w' t), w', w''.
  unfold setup_events in Htr. rewrite Hnone in Htr.
  split; [done|]. split; [by apply new_events_app|]. split.
  { unfold construct_events, fresh_tlab. by destruct (variant P). }
  split; [done|]. split; [done|]. split.
  - unfold thread_main. by rewrite (bind_returned _ _ _ _ _ Hrun).
  - by apply new_events_app.
Qed.

(** C7, as the code has it: when [pthread_key_create] fails inside the
    one-time gate, [make_heap_key] does nothing about it.  [initTSD]
    returns and marks the storage as initialised, the key stays
    unregistered, and [getCustomHeap] goes on and returns a TLAB: for a
    thread that has no value under the key it constructs one in a new block
    of the main heap, and for a thread that has a value it returns that
    value and constructs nothing. *)
Theorem make_heap_key_failure_ignored (w : World) (t : tid) :
  key_create_ok P = false ->
  initializedTSD w = false ->
  key_once w = false ->
  theHeapKey w = false ->
  make_heap_key P w = (Returned tt, w) /\
  initTSD P w = (Returned tt, set_initializedTSD true (set_key_once true w)) /\
  exists h w',
    getCustomHeap_keyed P t w = (Returned h, w') /\
    theHeapKey w' = false /\
    initializedTSD w' = true /\
    (specific w !! t = None ->
       h = PoolBlock (pool_next w) /\
       new_events w w' =
         [EvPoolMalloc t (sizeof_TheCustomHeapType P + sizeof_double)
            (PoolBlock (pool_next w));
          EvConstruct t (PoolBlock (pool_next w))]) /\
    (forall h0, specific w !! t = Some h0 -> h = h0 /\ new_events w w' = []).
Proof.
  intros Hc Hi Ho Hk.
  assert (Hka : key_after_init P w = false).
  { unfold key_after_init. by rewrite Hi, Ho, Hc, Hk. }
  split; [|split].
  - unfold make_heap_key, pthread_key_create. rewrite Hc. by mrun.
  - rewrite initTSD_run. unfold tsd_done, once_after_init. rewrite Hka, Hi.
    clear Hka. destruct w. cbn in Hk. by subst.
  - destruct (specific w !! t) as [h|] eqn:Hs.
    + exists h. eexists. rewrite (getCustomHeap_keyed_hit P w t h Hs).
      split; [done|]. unfold tsd_done. wsimpl. rewrite Hka.
      split; [done|]. split; [done|]. split; [done|].
      intros h0 [= <-]. split; [done|].
      apply new_events_app. wsimpl. by rewrite app_nil_r.
    + eexists. eexists. rewrite (getCustomHeap_keyed_miss P w t Hs).
      split; [done|]. unfold keyed_fresh, tsd_done. wsimpl. rewrite Hka.
      split; [done|]. split; [done|]. split; [|done]. intros _. split; [done|].
      apply new_events_app. wsimpl. by rewrite <- app_assoc.
Qed.

(** C8, as the code has it: the wrapper reads the entry function and its
    argument out of the launch package and calls the entry function with
    that argument; it does not give the storage of the package back, which
    still holds the pair when the wrapper returns, and no [free] of the main
    heap names it. *)
Theorem startMeUp_keeps_package (w : World) (t : tid) (n : nat)
    (f : threadFunctionType) (arg : Z) :
  pairs w !! n = Some (f, arg) ->
  only_uses (steps (code P f arg)) ->
  exists pre post w',
    startMeUp P (NewBlock n) t w = (Returned (retval (code P f arg)), w') /\
    new_events w w' = pre ++ EvCallEntry t f arg :: post /\
    pairs w' !! n = Some (f, arg) /\
    Forall (fun e => e <> EvPoolFree t (NewBlock n)) (new_events w w').
Proof.
  intros Hp Hu.
  destruct (startMeUp_spec P w t n f arg Hp Hu)
    as (body & setup & h & w' & Hrun & Htr & Hbody & Hsetup & Hfr).
  apply new_events_app in Htr.
  exists (setup_events P w t ++ [EvFindUnusedHeap t]),
    (body ++ [EvEntryReturned t (retval (code P f arg))] ++ setup
       ++ [EvClear t h; EvReleaseHeap t]), w'.
  split; [done|]. split; [|split].
  - rewrite Htr, <- !app_assoc. done.
  - destruct Hfr as (_&_&_&_&_&->&_). done.
  - rewrite Htr. rewrite !Forall_app. repeat split.
    + eapply Forall_impl; [apply setup_events_is_setup|]. by intros [].
    + repeat constructor; done.
    + eapply Forall_impl; [exact Hbody|]. by intros [].
    + repeat constructor; done.
    + eapply Forall_impl; [exact Hsetup|]. by intros [].
    + repeat constructor; done.
Qed.

End Divergences.

Example keyed_thread_life :
  new_events (two_created linux_keyed)
    (snd (thread_main linux_keyed (NewBlock 0) 1 (two_created linux_keyed)))
  = [EvPoolMalloc 1 108 (PoolBlock 1); EvConstruct 1 (PoolBlock 1);
     EvFindUnusedHeap 1; EvCallEntry 1 0 5;
     EvUse 1 (PoolBlock 1); EvUse 1 (PoolBlock 1); EvEntryReturned 1 6;
     EvClear 1 (PoolBlock 1); EvReleaseHeap 1;
     EvClear 1 (PoolBlock 1); EvPoolFree 1 (PoolBlock 1); EvReleaseHeap 1;
     EvThreadTerminated 1 6].
Proof. vm_compute. reflexivity. Qed.

Example inline_thread_life :
  new_events (two_created linux_inline)
    (snd (thread_main linux_inline (NewBlock 0) 1 (two_created linux_inline)))
  = [EvConstruct 1 (TlabBuffer 1); EvFindUnusedHeap 1; EvCallEntry 1 0 5;
     EvUse 1 (TlabBuffer 1); EvUse 1 (TlabBuffer 1); EvEntryReturned 1 6;
     EvClear 1 (TlabBuffer 1); EvReleaseHeap 1; EvThreadTerminated 1 6].
Proof. vm_compute. reflexivity. Qed.

Example inline_thread_exit_life :
  new_events (two_created linux_inline)
    (snd (thread_main linux_inline (NewBlock 1) 2 (two_created linux_inline)))
  = [EvConstruct 2 (TlabBuffer 2); EvFindUnusedHeap 2; EvCallEntry 2 1 5;
     EvUse 2 (TlabBuffer 2); EvUse 2 (TlabBuffer 2);
     EvClear 2 (TlabBuffer 2); EvReleaseHeap 2;
     EvForwardExit 2 6; EvThreadTerminated 2 6].
Proof. vm_compute. reflexivity. Qed.

Lemma keyed_thread_releases_twice_witness :
  exists w',
    thread_main linux_keyed (NewBlock 0) 1 (two_created linux_keyed)
      = (ThreadGone 6, w') /\
    count_release 1 (new_events (two_created linux_keyed) w') = 2%nat.
Proof.
  apply (keyed_thread_releases_twice linux_keyed (two_created linux_keyed) 1 0 0 5).
  - reflexivity.
  - intros _. vm_compute. reflexivity.
  - vm_compute. reflexivity.
  - repeat constructor.
Defined.

Lemma lease_before_construction_fails :
  ~ lease_before_construction
      (new_events (two_created linux_inline)
         (snd (startMeUp linux_inline (NewBlock 0) 1 (two_created linux_inline))))
      1.
Proof.
  intros H.
  destruct (H 0%nat (TlabBuffer 1)) as (i & Hlt & _).
  - vm_compute. reflexivity.
  - lia.
Qed.

Lemma startMeUp_order_witness :
  exists body setup h dtor w' w'',
    startMeUp linux_inline (NewBlock 0) 1 (two_created linux_inline)
      = (Returned 6, w') /\
    new_events (two_created linux_inline) w' =
      [EvConstruct 1 (TlabBuffer 1)]
      ++ [EvFindUnusedHeap 1; EvCallEntry 1 0 5] ++ body
      ++ [EvEntryReturned 1 6] ++ setup ++ [EvClear 1 h; EvReleaseHeap 1] /\
    last [EvConstruct 1 (TlabBuffer 1)] = Some (EvConstruct 1 (TlabBuffer 1)) /\
    Forall (fun e => is_body e = true) body /\
    Forall (fun e => is_setup e = true) setup /\
    thread_main linux_inline (NewBlock 0) 1 (two_created linux_inline)
      = (ThreadGone 6, w'') /\
    new_events w' w'' = dtor ++ [EvThreadTerminated 1 6].
Proof.
  apply (startMeUp_order linux_inline (two_created linux_inline) 1 0 0 5).
  - vm_compute. reflexivity.
  - vm_compute. reflexivity.
  - repeat constructor.
Defined.

Lemma getCustomHeap_idempotent_witness :
  exists h w1,
    getCustomHeap linux_keyed_nokey 1 w_boot = (Returned h, w1) /\
    (tls_value linux_keyed_nokey w_boot 1 = None ->
       new_events w_boot w1 = construct_events linux_keyed_nokey w_boot 1 /\
       last (new_events w_boot w1) = Some (EvConstruct 1 h)) /\
    get_many linux_keyed_nokey 3 1 w1 = (Returned (replicate 3 h), w1).
Proof.
  apply (getCustomHeap_idempotent linux_keyed_nokey w_boot 1 3).
Defined.

Lemma startMeUp_preserves_result_witness :
  exists pre setup h w' w'',
    startMeUp linux_keyed (NewBlock 0) 1 (two_created linux_keyed)
      = (Returned 6, w') /\
    thread_main linux_keyed (NewBlock 0) 1 (two_created linux_keyed)
      = (ThreadGone 6, w'') /\
    new_events (two_created linux_keyed) w' =
      pre ++ [EvEntryReturned 1 6] ++ setup ++ [EvClear 1 h; EvReleaseHeap 1] /\
    Forall (fun e => is_setup e = true) setup.
Proof.
  apply (startMeUp_preserves_result linux_keyed (two_created linux_keyed) 1 0 0 5).
  - vm_compute. reflexivity.
  - repeat constructor.
Defined.

Lemma both_exits_same_teardown_witness :
  exists wr we,
    thread_main linux_keyed (NewBlock 0) 1 (two_created linux_keyed)
      = (ThreadGone 6, wr) /\
    thread_main linux_keyed (NewBlock 1) 1 (two_created linux_keyed)
      = (ThreadGone 6, we) /\
    heap_view wr = heap_view we.
Proof.
  apply (both_exits_same_teardown linux_keyed (two_created linux_keyed)
           1 0 1 0 1 5 5 6 [UseHeap]).
  - vm_compute. reflexivity.
  - vm_compute. reflexivity.
  - repeat constructor.
  - reflexivity.
  - reflexivity.
  - vm_compute. reflexivity.
Defined.

Lemma registration_failure_not_fatal :
  ~ registration_failure_fatal linux_keyed_nokey w_boot 1.
Proof.
  intros H. specialize (H eq_refl eq_refl eq_refl).
  vm_compute in H. discriminate H.
Qed.

Lemma make_heap_key_failure_ignored_witness :
  make_heap_key linux_keyed_nokey w_boot = (Returned tt, w_boot) /\
  initTSD linux_keyed_nokey w_boot
    = (Returned tt, set_initializedTSD true (set_key_once true w_boot)) /\
  exists h w',
    getCustomHeap_keyed linux_keyed_nokey 1 w_boot = (Returned h, w') /\
    theHeapKey w' = false /\
    initializedTSD w' = true /\
    (specific w_boot !! 1%nat = None ->
       h = PoolBlock 0 /\
       new_events w_boot w' =
         [EvPoolMalloc 1 108 (PoolBlock 0); EvConstruct 1 (PoolBlock 0)]) /\
    (forall h0, specific w_boot !! 1%nat = Some h0 ->
       h = h0 /\ new_events w_boot w' = []).
Proof.
  apply (make_heap_key_failure_ignored linux_keyed_nokey w_boot 1); reflexivity.
Defined.

Lemma package_not_freed :
  ~ package_freed
      (snd (thread_main linux_inline (NewBlock 0) 1 (two_created linux_inline))) 0.
Proof. unfold package_freed. vm_compute. discriminate. Qed.

Lemma startMeUp_keeps_package_witness :
  exists pre post w',
    startMeUp linux_inline (NewBlock 0) 1 (two_created linux_inline)
      = (Returned 6, w') /\
    new_events (two_created linux_inline) w' = pre ++ EvCallEntry 1 0 5 :: post /\
    pairs w' !! 0%nat = Some (0%nat, 5) /\
    Forall (fun e => e <> EvPoolFree 1 (NewBlock 0))
      (new_events (two_created linux_inline) w').
Proof.
  apply (startMeUp_keeps_package linux_inline (two_created linux_inline) 1 0 0 5).
  - vm_compute. reflexivity.
  - repeat constructor.
Defined.

Lemma pthread_create_forwards_witness :
  exists w',
    pthread_create linux_keyed 10 0 0%nat 5 0%nat w_boot
      = (Returned 0, w') /\
    new_events w_boot w' =
      setup_events linux_keyed w_boot 0
      ++ [EvAnyThreadCreated; EvNewPair 0 (NewBlock 0) 0 5;
          EvRealCreate 0 10 0 StartMeUp (NewBlock 0)] /\
    pairs w' !! 0%nat = Some (0%nat, 5) /\
    anyThreadCreated w' = true.
Proof.
  apply (pthread_create_forwards linux_keyed w_boot 0 10 0 0 5 (fun _ _ _ _ => 0)).
  vm_compute. reflexivity.
Defined.

Lemma pthread_exit_without_tlab_witness :
  exists o w' post,
    pthread_exit linux_keyed 3 0 w_boot = (o, w') /\
    new_events w_boot w' =
      [EvPoolMalloc 0 108 (PoolBlock 0); EvConstruct 0 (PoolBlock 0)]
      ++ [EvClear 0 (PoolBlock 0); EvReleaseHeap 0] ++ post /\
    last [EvPoolMalloc 0 108 (PoolBlock 0); EvConstruct 0 (PoolBlock 0)]
      = Some (EvConstruct 0 (PoolBlock 0)) /\
    count_find 0 (trace w') = 0%nat.
Proof.
  apply (pthread_exit_without_tlab linux_keyed w_boot 0 3); reflexivity.
Defined.

(** ** More about the TLAB storage *)

Section StorageFacts.

Variable P : Platform.

Lemma getCustomHeap_cases w t :
  (exists h, slot P w t = Some h /\
     getCustomHeap P t w =
       (Returned h, match variant P with Inline => w | Keyed => tsd_done P w end)) \/
  (slot P w t = None /\
     getCustomHeap P t w =
       (Returned (fresh_tlab P w t),
        match variant P with
        | Inline => set_theTLAB <[t := TlabBuffer t]>
                      (log (EvConstruct t (TlabBuffer t)) w)
        | Keyed => keyed_fresh P t (tsd_done P w)
        end)).
Proof.
  unfold slot, getCustomHeap, fresh_tlab. destruct (variant P).
  - destruct (theTLAB w !! t) as [h|] eqn:Hs.
    + left. exists h. by rewrite (getCustomHeap_inline_hit w t h Hs).
    + right. by rewrite (getCustomHeap_inline_miss w t Hs).
  - destruct (specific w !! t) as [h|] eqn:Hs.
    + left. exists h. by rewrite (getCustomHeap_keyed_hit P w t h Hs).
    + right. by rewrite (getCustomHeap_keyed_miss P w t Hs).
Qed.

Lemma getCustomHeap_tls_other (w : World) (t t' : tid) :
  t <> t' ->
  tls_value P (snd (getCustomHeap P t w)) t' = tls_value P w t'.
Proof.
  intros Hne. unfold tls_value.
  destruct (getCustomHeap_cases w t) as [(h & _ & ->)|(_ & ->)]; cbn [snd].
  - destruct (variant P); [done|]. unfold tsd_done. by wsimpl.
  - destruct (variant P).
    + wsimpl. by rewrite lookup_insert_ne.
    + unfold keyed_fresh, tsd_done. wsimpl. by rewrite lookup_insert_ne.
Qed.

(** X1: [getCustomHeap] called by thread [t] leaves the thread-local
    storage of every other thread as it was. *)
Theorem getCustomHeap_other_thread (w : World) (t t' : tid) :
  t <> t' ->
  tls_value P (snd (getCustomHeap P t w)) t' = tls_value P w t'.
Proof. apply getCustomHeap_tls_other. Qed.

Lemma getCustomHeap_fresh_pool w t :
  variant P = Keyed ->
  slot P w t = None ->
  pool_next (snd (getCustomHeap P t w)) = S (pool_next w).
Proof.
  intros Hv Hs.
  destruct (getCustomHeap_cases w t) as [(h & Hs' & _)|(_ & ->)]; [congruence|].
  cbn [snd]. rewrite Hv. unfold keyed_fresh, tsd_done. by wsimpl.
Qed.

(** X2: two threads that have no TLAB and call [getCustomHeap] one after
    the other get two different TLABs. *)
Theorem distinct_threads_distinct_tlabs (w : World) (t1 t2 : tid) :
  t1 <> t2 ->
  tls_value P w t1 = None ->
  tls_value P w t2 = None ->
  exists h1 h2 w1 w2,
    getCustomHeap P t1 w = (Returned h1, w1) /\
    getCustomHeap P t2 w1 = (Returned h2, w2) /\
    h1 <> h2.
Proof.
  intros Hne H1 H2.
  destruct (getCustomHeap_spec P w t1) as (w1 & Hrun1 & _).
  destruct (getCustomHeap_spec P w1 t2) as (w2 & Hrun2 & _).
  exists (tlab_found P w t1), (tlab_found P w1 t2), w1, w2.
  split; [done|]. split; [done|].
  assert (H2' : tls_value P w1 t2 = None).
  { pose proof (getCustomHeap_tls_other w t1 t2 Hne) as H.
    rewrite Hrun1 in H. cbn [snd] in H. by rewrite H. }
  pose proof (tls_value_None_slot P w t1 H1) as Hs1.
  pose proof (tls_value_None_slot P w1 t2 H2') as Hs2.
  unfold tlab_found. rewrite Hs1, Hs2. cbn [default].
  pose proof (getCustomHeap_fresh_pool w t1) as Hpool.
  rewrite Hrun1 in Hpool. cbn [snd] in Hpool.
  unfold fresh_tlab. destruct (variant P).
  - congruence.
  - rewrite Hpool by done. intros [=]. lia.
Qed.

(** X3: [getCustomHeap] returns in every state of the storage: it never
    trips the assertion of [initializeCustomHeap], never ends the thread
    and never exits. *)
Theorem getCustomHeap_returns (w : World) (t : tid) :
  exists h w', getCustomHeap P t w = (Returned h, w').
Proof.
  destruct (getCustomHeap_spec P w t) as (w' & Hrun & _). eauto.
Qed.



End StorageFacts.

(** ** More about the life of a thread *)

Section LifeFacts.

Variable P : Platform.

Lemma run_tsd_destructors_bound w t h :
  bound P w t h ->
  run_tsd_destructors P t w =
    (Returned tt,
     logs (key_teardown P t h)
       (match variant P with
        | Inline => w
        | Keyed => set_specific (delete t) w
        end)).
Proof.
  unfold bound, run_tsd_destructors, key_teardown, deleteThatHeap, heap_clear,
    main_free, releaseHeap.
  destruct (variant P).
  - intros _. mrun. by rewrite logs_nil.
  - intros (_ & Hk & Hs). mrun. rewrite Hk. mrun. rewrite Hs. mrun.
    unfold log. by rewrite !logs_logs.
Qed.

Lemma libc_thread_exit_bound {A} w t h v :
  bound P w t h ->
  libc_thread_exit (A := A) P t v w =
    (ThreadGone v,
     logs (key_teardown P t h ++ [EvThreadTerminated t v])
       (match variant P with
        | Inline => w
        | Keyed => set_specific (delete t) w
        end)).
Proof.
  intros Hb. unfold libc_thread_exit.
  rewrite (bind_returned _ _ _ _ _ (run_tsd_destructors_bound w t h Hb)).
  mrun. unfold log. by rewrite logs_logs.
Qed.

Lemma tls_value_after_end w t h evs :
  bound P w t h ->
  tls_value P
    (logs evs (match variant P with
               | Inline => w
               | Keyed => set_specific (delete t) w
               end)) t
  = match variant P with Inline => Some h | Keyed => None end.
Proof.
  unfold bound, tls_value. destruct (variant P); wsimpl; [done|].
  intros _. by rewrite lookup_delete_eq.
Qed.

Lemma count_release_teardown t h :
  count_release t (key_teardown P t h) =
    match variant P with Inline => 0%nat | Keyed => 1%nat end.
Proof.
  unfold key_teardown. destruct (variant P); [done|].
  rewrite !count_release_cons. repeat case_decide; done.
Qed.

(** X7: the life of an intercepted thread whose body returns, when the
    thread starts without a TLAB.  One TLAB is constructed, every use of
    the allocator goes to it, and the thread ends with the value its body
    returned.  At the end, the keyed build has freed the TLAB's block and
    cleared the key's value; the inline build leaves [theTLAB] set. *)
Theorem thread_life_returning (w : World) (t : tid) (n : nat)
    (f : threadFunctionType) (arg : Z) :
  registration_ok P w ->
  tls_value P w t = None ->
  pairs w !! n = Some (f, arg) ->
  only_uses (steps (code P f arg)) ->
  let v := retval (code P f arg) in
  let h := fresh_tlab P w t in
  exists w',
    thread_main P (NewBlock n) t w = (ThreadGone v, w') /\
    new_events w w' =
      construct_events P w t
      ++ [EvFindUnusedHeap t; EvCallEntry t f arg]
      ++ replicate (length (steps (code P f arg))) (EvUse t h)
      ++ [EvEntryReturned t v; EvClear t h; EvReleaseHeap t]
      ++ key_teardown P t h ++ [EvThreadTerminated t v] /\
    tls_value P w' t = match variant P with Inline => Some h | Keyed => None end.
Proof.
  intros Hr Hnone Hp Hu v h. apply tls_value_None_slot in Hnone.
  destruct (startMeUp_registered P w t n f arg Hr Hp Hu)
    as (w1 & _ & Htr1 & Hb & Hrun).
  unfold tlab_found, setup_events in *. rewrite Hnone in *. cbn [default] in *.
  fold h in Hb, Hrun. fold v in Hrun.
  set (mid := _ ++ _) in Hrun.
  eexists. unfold thread_main. rewrite (bind_returned _ _ _ _ _ Hrun).
  rewrite (libc_thread_exit_bound _ t h v) by (by apply bound_logs).
  split; [done|]. split.
  - apply new_events_app. destruct (variant P); wsimpl; rewrite Htr1;
      subst mid; by rewrite <- !app_assoc.
  - assert (Hb' := bound_logs P w1 t h mid Hb).
    apply (tls_value_after_end _ t h _ Hb').
Qed.

Lemma bound_set_real_pthread_exit w t h s :
  bound P w t h -> bound P (set_real_pthread_exit s w) t h.
Proof. unfold bound. by destruct (variant P). Qed.

(** X8: the life of an intercepted thread whose body calls [pthread_exit],
    when the real [pthread_exit] is the C library's.  The thread ends with
    the value passed to [pthread_exit]; what follows the call in the body
    never runs, and the wrapper's own [exitRoutine] is not reached, so
    the wrapper path tears down once.  [releaseHeap] is called once in the
    inline build and twice in the keyed build, where the key's destructor
    follows. *)
Theorem thread_life_exiting (w : World) (t : tid) (n k : nat)
    (f : threadFunctionType) (arg v : Z) (rest : list Step) :
  registration_ok P w ->
  pairs w !! n = Some (f, arg) ->
  steps (code P f arg) = replicate k UseHeap ++ CallPthreadExit v :: rest ->
  resolved_exit P w = Some (SymExit true) ->
  let h := tlab_found P w t in
  exists w',
    thread_main P (NewBlock n) t w = (ThreadGone v, w') /\
    new_events w w' =
      setup_events P w t
      ++ [EvFindUnusedHeap t; EvCallEntry t f arg]
      ++ replicate k (EvUse t h)
      ++ [EvClear t h; EvReleaseHeap t; EvForwardExit t v]
      ++ key_teardown P t h ++ [EvThreadTerminated t v] /\
    count_release t (new_events w w') =
      match variant P with Inline => 1%nat | Keyed => 2%nat end.
Proof.
  intros Hr Hp Hsteps Hres h.
  destruct (getCustomHeap_spec P w t) as (w1 & Hrun1 & Htr1 & Hfr1 & Hb).
  specialize (Hb Hr). fold h in Hrun1, Hb.
  assert (Hp1 : pairs w1 !! n = Some (f, arg)).
  { destruct Hfr1 as (_&_&_&_&_&->&_). done. }
  assert (Hu : only_uses (replicate k UseHeap)).
  { unfold only_uses. by apply Forall_replicate. }
  set (w2 := logs (EvFindUnusedHeap t :: EvCallEntry t f arg
                   :: replicate k (EvUse t h)) w1).
  assert (Hres2 : resolved_exit P w2 = Some (SymExit true)).
  { rewrite (frame_resolved_exit P w w2); [done|].
    eapply frame_trans; [exact Hfr1 | apply frame_logs]. }
  set (w3 := set_real_pthread_exit (Some (Some (SymExit true))) w2).
  assert (Hb3 : bound P w3 t h).
  { by apply bound_set_real_pthread_exit, bound_logs. }
  set (w4 := logs [EvClear t h; EvReleaseHeap t; EvForwardExit t v] w3).
  assert (Hb4 : bound P w4 t h) by (by apply bound_logs).
  assert (Hlife :
    thread_main P (NewBlock n) t w =
      libc_thread_exit (A := Z) P t v w4).
  { unfold thread_main, startMeUp.
    rewrite !bind_assoc, (bind_returned _ _ _ _ _ Hrun1).
    unfold findUnusedHeap. mrun. rewrite (load_pair_run _ n (f, arg)) by done.
    cbn [fst snd]. unfold call_entry. mrun. unfold log at 1 2. rewrite logs_logs.
    cbn [app]. rewrite Hsteps, run_steps_app. mrun.
    rewrite (run_uses_bound P t _ _ h Hu) by (by apply bound_logs).
    rewrite length_replicate, logs_logs. cbn [app]. fold w2.
    cbn [run_steps run_step]. mrun.
    rewrite (pthread_exit_libc P w2 t v Hres2). fold w3. mrun.
    rewrite (exitRoutine_bound P w3 t h Hb3). unfold log. rewrite logs_logs.
    cbn [app]. fold w4.
    rewrite (libc_thread_exit_bound (A := unit) w4 t h v Hb4).
    by rewrite (libc_thread_exit_bound (A := Z) w4 t h v Hb4). }
  rewrite Hlife, (libc_thread_exit_bound (A := Z) w4 t h v Hb4).
  eexists. split; [done|].
  assert (Hev : forall w', trace w' = trace w4 ++ key_teardown P t h
                                      ++ [EvThreadTerminated t v] ->
    new_events w w' =
      setup_events P w t
      ++ [EvFindUnusedHeap t; EvCallEntry t f arg]
      ++ replicate k (EvUse t h)
      ++ [EvClear t h; EvReleaseHeap t; EvForwardExit t v]
      ++ key_teardown P t h ++ [EvThreadTerminated t v]).
  { intros w' Htr. apply new_events_app. rewrite Htr. subst w4 w3 w2. wsimpl.
    rewrite Htr1. by rewrite <- !app_assoc. }
  assert (Htr' : forall evs, trace (logs evs
            (match variant P with
             | Inline => w4
             | Keyed => set_specific (delete t) w4
             end)) = trace w4 ++ evs).
  { intros evs. by destruct (variant P). }
  split; [apply Hev, Htr'|].
  rewrite (Hev _ (Htr' _)).
  rewrite !count_release_app.
  rewrite (count_release_body t (setup_events P w t))
    by apply is_setup_is_body, setup_events_is_setup.
  rewrite (count_release_body t (replicate _ _)) by apply replicate_use_is_body.
  rewrite count_release_teardown.
  rewrite !count_release_cons. repeat case_decide; try done.
  by destruct (variant P).
Qed.

End LifeFacts.

(** ** More about the interposed functions *)

Section InterposedFacts.

Variable P : Platform.

(** X9: when the function behind [real_pthread_exit] returns, the
    interposed [pthread_exit] falls through to [exit (0)]: after the
    teardown and the forwarded call the process exits with status 0, and
    no destructor of a key has run. *)
Theorem pthread_exit_falls_through_to_exit (w : World) (t : tid) (v : Z) :
  resolved_exit P w = Some (SymExit false) ->
  exists w',
    pthread_exit P v t w = (ProcessExit 0, w') /\
    new_events w w' =
      setup_events P w t
      ++ [EvClear t (tlab_found P w t); EvReleaseHeap t;
          EvForwardExit t v; EvProcessExit 0].
Proof.
  intros Hres.
  destruct (pthread_exit_spec P w t v) as (w1 & w' & _ & Hrun & Htr & _).
  rewrite Hres in Hrun, Htr. exists w'. split; [done|]. by apply new_events_app.
Qed.

(** X10: when [dlsym] has found no real [pthread_exit], the teardown still
    runs first: [clear] and [releaseHeap] are called, and the call through
    the null pointer is the last thing the thread does. *)
Theorem pthread_exit_unresolved (w : World) (t : tid) (v : Z) :
  resolved_exit P w = None ->
  exists w',
    pthread_exit P v t w = (Crashed, w') /\
    new_events w w' =
      setup_events P w t ++ [EvClear t (tlab_found P w t); EvReleaseHeap t].
Proof.
  intros Hres.
  destruct (pthread_exit_spec P w t v) as (w1 & w' & _ & Hrun & Htr & _).
  rewrite Hres in Hrun, Htr. exists w'. split; [done|].
  apply new_events_app. cbn [forward_events] in Htr.
  by rewrite app_nil_r in Htr.
Qed.

Lemma forward_frame w t v s :
  frame w (snd ((call_exit_function P s v t ;; exit_ (A := unit) 0) w)).
Proof.
  unfold call_exit_function, exit_.
  destruct s as [[rc|[|]]|]; mrun; cbn [snd]; try apply frame_refl.
  - destruct (libc_thread_exit_spec (A := unit) P (log (EvForwardExit t v) w) t v)
      as (w1 & Hrun & _ & Hfr).
    rewrite Hrun. cbn [snd]. eapply frame_trans; [apply frame_logs | exact Hfr].
  - unfold log. rewrite logs_logs. apply frame_logs.
Qed.

(** X11: the real [pthread_exit] is looked up once.  Whatever way a call
    of the interposed [pthread_exit] ends, [real_pthread_exit] then holds
    what the lookup gave, and a later call by any thread uses it. *)
Theorem real_pthread_exit_cached (w : World) (t : tid) (v : Z) :
  let w' := snd (pthread_exit P v t w) in
  real_pthread_exit w' = Some (resolved_exit P w) /\
  resolved_exit P w' = resolved_exit P w.
Proof.
  intros w'.
  assert (H : real_pthread_exit w' = Some (resolved_exit P w)).
  { subst w'. unfold pthread_exit.
    rewrite (bind_returned _ _ _ _ _ (init_real_pthread_exit_run P w)).
    set (w0 := set_real_pthread_exit _ w).
    destruct (exitRoutine_spec P w0 t) as (w1 & Hrun & _ & Hfr & _).
    rewrite (bind_returned _ _ _ _ _ Hrun).
    pose proof (forward_frame w1 t v (resolved_exit P w)) as Hfr'.
    destruct Hfr' as (_ & _ & -> & _). by destruct Hfr as (_ & _ & -> & _). }
  split; [done|]. unfold resolved_exit at 1. by rewrite H.
Qed.

(** The world the tail of [pthread_create] leaves. *)
Lemma pthread_create_tail_world w t thread attr f arg rc :
  resolved_create P w = Some (SymCreate rc) ->
  let args := NewBlock (new_next w) in
  let w1 := log (EvRealCreate t thread attr StartMeUp args)
              (log (EvNewPair t args f arg)
                 (store_pair (new_next w) (f, arg)
                    (set_anyThreadCreated true
                       (log EvAnyThreadCreated
                          (set_real_pthread_create
                             (Some (Some (SymCreate rc))) w))))) in
  (real ← init_real_pthread_create P;
   emit EvAnyThreadCreated;;
   modify (set_anyThreadCreated true);;
   args ← new_pair f arg t;
   result ← call_create_function real thread attr StartMeUp args t;
   mret result) w
    = (Returned (rc thread attr StartMeUp args),
       if rc thread attr StartMeUp args =? 0 then spawn StartMeUp args w1 else w1).
Proof.
  intros Hres args w1.
  rewrite (bind_returned _ _ _ _ _ (init_real_pthread_create_run P w)).
  rewrite Hres. unfold new_pair, call_create_function. msimpl. fold args.
  destruct (rc thread attr StartMeUp args =? 0); msimpl; by subst w1.
Qed.

Lemma pthread_create_again w t thread attr f arg rc :
  create_t w = true ->
  resolved_create P w = Some (SymCreate rc) ->
  let args := NewBlock (new_next w) in
  let w1 := log (EvRealCreate t thread attr StartMeUp args)
              (log (EvNewPair t args f arg)
                 (store_pair (new_next w) (f, arg)
                    (set_anyThreadCreated true
                       (log EvAnyThreadCreated
                          (set_real_pthread_create
                             (Some (Some (SymCreate rc))) w))))) in
  pthread_create P thread attr f arg t w
    = (Returned (rc thread attr StartMeUp args),
       if rc thread attr StartMeUp args =? 0 then spawn StartMeUp args w1 else w1).
Proof.
  intros Hc Hres args w1. unfold pthread_create.
  rewrite bind_get, Hc, bind_ret.
  apply (pthread_create_tail_world w t thread attr f arg rc Hres).
Qed.

Lemma pthread_create_first w t thread attr f arg rc :
  resolved_create P w = Some (SymCreate rc) ->
  exists w',
    pthread_create P thread attr f arg t w
      = (Returned (rc thread attr StartMeUp (NewBlock (new_next w))), w') /\
    create_t w' = true /\
    resolved_create P w' = Some (SymCreate rc) /\
    new_next w' = S (new_next w) /\
    pairs w' = <[new_next w := (f, arg)]> (pairs w) /\
    anyThreadCreated w' = true /\
    spawned w' = spawned w ++
      (if rc thread attr StartMeUp (NewBlock (new_next w)) =? 0
       then [(StartMeUp, NewBlock (new_next w))] else []).
Proof.
  intros Hres. unfold pthread_create. rewrite bind_get.
  destruct (create_t w) eqn:Hc.
  - rewrite bind_ret,
      (pthread_create_tail_world w t thread attr f arg rc Hres).
    eexists. split; [done|]. unfold resolved_create.
    destruct (_ =? 0); wsimpl; rewrite ?app_nil_r; done.
  - destruct (getCustomHeap_spec P w t) as (w1 & Hrun1 & _ & Hfr1 & _).
    destruct Hfr1 as (_ & Hrc & _ & _ & Hn & Hp & Hsp).
    assert (Hres2 : resolved_create P (set_create_t true w1) = Some (SymCreate rc)).
    { unfold resolved_create in *. wsimpl. by rewrite Hrc. }
    rewrite !bind_assoc, (bind_returned _ _ _ _ _ Hrun1), bind_modify.
    rewrite (pthread_create_tail_world _ t thread attr f arg rc Hres2).
    wsimpl. rewrite Hn. eexists. split; [done|]. unfold resolved_create.
    destruct (_ =? 0); wsimpl; rewrite ?app_nil_r, ?Hn, ?Hp, ?Hsp; done.
Qed.

(** X12: two calls of the interposed [pthread_create] in a row.  The TLAB
    of the caller is forced and the real function is looked up in the
    first call only: the second call, by any thread [t'], adds exactly the
    store to [anyThreadCreated], the new package and the real call to the
    log.  The two packages live in different blocks and both are there
    afterwards. *)
Theorem pthread_create_twice (w : World) (t t' : tid)
    (thread attr thread' attr' : Z) (f f' : threadFunctionType) (arg arg' : Z)
    (rc : Z -> Z -> codeptr -> addr -> Z) :
  resolved_create P w = Some (SymCreate rc) ->
  let n := new_next w in
  exists w1 w2,
    pthread_create P thread attr f arg t w
      = (Returned (rc thread attr StartMeUp (NewBlock n)), w1) /\
    pthread_create P thread' attr' f' arg' t' w1
      = (Returned (rc thread' attr' StartMeUp (NewBlock (S n))), w2) /\
    new_events w1 w2 =
      [EvAnyThreadCreated; EvNewPair t' (NewBlock (S n)) f' arg';
       EvRealCreate t' thread' attr' StartMeUp (NewBlock (S n))] /\
    pairs w2 !! n = Some (f, arg) /\
    pairs w2 !! S n = Some (f', arg').
Proof.
  intros Hres n.
  destruct (pthread_create_first w t thread attr f arg rc Hres)
    as (w1 & Hrun1 & Hc1 & Hres1 & Hn1 & Hp1 & _).
  exists w1. eexists. split; [exact Hrun1|].
  rewrite (pthread_create_again w1 t' thread' attr' f' arg' rc Hc1 Hres1).
  rewrite Hn1. fold n. split; [done|]. split; [|split].
  - apply new_events_app.
    destruct (_ =? 0); wsimpl; by rewrite <- !app_assoc.
  - destruct (_ =? 0); wsimpl; rewrite Hp1, lookup_insert_ne by lia;
      apply lookup_insert_eq.
  - destruct (_ =? 0); wsimpl; apply lookup_insert_eq.
Qed.

(** X13: when the real [pthread_create] fails, the interposed one returns
    its error code and no thread is started, but [anyThreadCreated] has
    been set and the package has been allocated and stays allocated. *)
Theorem pthread_create_failure (w : World) (t : tid) (thread attr : Z)
    (f : threadFunctionType) (arg : Z) (rc : Z -> Z -> codeptr -> addr -> Z) :
  resolved_create P w = Some (SymCreate rc) ->
  rc thread attr StartMeUp (NewBlock (new_next w)) <> 0 ->
  exists w',
    pthread_create P thread attr f arg t w
      = (Returned (rc thread attr StartMeUp (NewBlock (new_next w))), w') /\
    spawned w' = spawned w /\
    anyThreadCreated w' = true /\
    pairs w' !! new_next w = Some (f, arg).
Proof.
  intros Hres Hrc.
  destruct (pthread_create_first w t thread attr f arg rc Hres)
    as (w' & Hrun & _ & _ & _ & Hp & Hf & Hsp).
  exists w'. split; [done|]. split; [|split; [done|]].
  - rewrite Hsp. apply Z.eqb_neq in Hrc. rewrite Hrc. by rewrite app_nil_r.
  - rewrite Hp. apply lookup_insert_eq.
Qed.

End InterposedFacts.

Section MoreLifeFacts.

Variable P : Platform.

(** X15: an intercepted thread whose body returns leases a heap exactly
    once in its life: [findUnusedHeap] is called once, by the wrapper,
    whatever the state of the key. *)
Theorem thread_leases_once (w : World) (t : tid) (n : nat)
    (f : threadFunctionType) (arg : Z) :
  pairs w !! n = Some (f, arg) ->
  only_uses (steps (code P f arg)) ->
  exists w',
    thread_main P (NewBlock n) t w = (ThreadGone (retval (code P f arg)), w') /\
    count_find t (new_events w w') = 1%nat.
Proof.
  intros Hp Hu.
  destruct (startMeUp_spec P w t n f arg Hp Hu)
    as (body & setup & h & w1 & Hrun & Htr & Hbody & Hsetup & _).
  destruct (libc_thread_exit_spec (A := Z) P w1 t (retval (code P f arg)))
    as (w' & Hexit & Htr' & _).
  exists w'. split.
  - unfold thread_main. by rewrite (bind_returned _ _ _ _ _ Hrun).
  - rewrite (new_events_app w w' _ ltac:(rewrite Htr', Htr, <- !app_assoc; reflexivity)).
    rewrite !count_find_app.
    rewrite (count_find_body t (setup_events P w t))
      by apply is_setup_is_body, setup_events_is_setup.
    rewrite (count_find_body t body) by done.
    rewrite (count_find_body t setup) by (by apply is_setup_is_body).
    rewrite count_find_dtor.
    unfold count_find. rewrite !filter_cons, filter_nil.
    repeat case_decide; done.
Qed.

(** X16: the life of one thread leaves the thread-local storage of every
    other thread as it was. *)
Theorem thread_life_leaves_others (w : World) (t t' : tid) (n : nat)
    (f : threadFunctionType) (arg : Z) :
  t <> t' ->
  registration_ok P w ->
  pairs w !! n = Some (f, arg) ->
  only_uses (steps (code P f arg)) ->
  tls_value P (snd (thread_main P (NewBlock n) t w)) t' = tls_value P w t'.
Proof.
  intros Hne Hr Hp Hu.
  destruct (startMeUp_registered P w t n f arg Hr Hp Hu)
    as (w1 & Hrun1 & _ & Hb & Hrun).
  set (mid := _ ++ _) in Hrun.
  unfold thread_main. rewrite (bind_returned _ _ _ _ _ Hrun).
  rewrite (libc_thread_exit_bound P _ t (tlab_found P w t) _)
    by (by apply bound_logs).
  cbn [snd].
  pose proof (getCustomHeap_tls_other P w t t' Hne) as Hother.
  rewrite Hrun1 in Hother. cbn [snd] in Hother. rewrite <- Hother.
  unfold tls_value. destruct (variant P); wsimpl; [done|].
  by rewrite lookup_delete_ne.
Qed.

End MoreLifeFacts.

(** ** The added properties on the program above *)

Lemma getCustomHeap_other_thread_witness :
  tls_value linux_keyed (snd (getCustomHeap linux_keyed 2 (one_tlab linux_keyed))) 1
  = tls_value linux_keyed (one_tlab linux_keyed) 1.
Proof.
  apply (getCustomHeap_other_thread linux_keyed (one_tlab linux_keyed) 2 1). lia.
Defined.

Lemma distinct_threads_distinct_tlabs_witness :
  exists h1 h2 w1 w2,
    getCustomHeap linux_keyed 1 w_boot = (Returned h1, w1) /\
    getCustomHeap linux_keyed 2 w1 = (Returned h2, w2) /\
    h1 <> h2.
Proof.
  apply (distinct_threads_distinct_tlabs linux_keyed w_boot 1 2).
  - lia.
  - reflexivity.
  - reflexivity.
Defined.


Lemma thread_life_returning_witness :
  exists w',
    thread_main linux_keyed (NewBlock 0) 1 (two_created linux_keyed)
      = (ThreadGone 6, w') /\
    new_events (two_created linux_keyed) w' =
      [EvPoolMalloc 1 108 (PoolBlock 1); EvConstruct 1 (PoolBlock 1)]
      ++ [EvFindUnusedHeap 1; EvCallEntry 1 0 5]
      ++ replicate 2 (EvUse 1 (PoolBlock 1))
      ++ [EvEntryReturned 1 6; EvClear 1 (PoolBlock 1); EvReleaseHeap 1]
      ++ [EvClear 1 (PoolBlock 1); EvPoolFree 1 (PoolBlock 1); EvReleaseHeap 1]
      ++ [EvThreadTerminated 1 6] /\
    tls_value linux_keyed w' 1 = None.
Proof.
  apply (thread_life_returning linux_keyed (two_created linux_keyed) 1 0 0 5).
  - intros _. vm_compute. reflexivity.
  - vm_compute. reflexivity.
  - vm_compute. reflexivity.
  - repeat constructor.
Defined.

Lemma thread_life_exiting_witness :
  exists w',
    thread_main linux_keyed (NewBlock 1) 2 (two_created linux_keyed)
      = (ThreadGone 6, w') /\
    new_events (two_created linux_keyed) w' =
      setup_events linux_keyed (two_created linux_keyed) 2
      ++ [EvFindUnusedHeap 2; EvCallEntry 2 1 5]
      ++ replicate 2 (EvUse 2 (PoolBlock 1))
      ++ [EvClear 2 (PoolBlock 1); EvReleaseHeap 2; EvForwardExit 2 6]
      ++ [EvClear 2 (PoolBlock 1); EvPoolFree 2 (PoolBlock 1); EvReleaseHeap 2]
      ++ [EvThreadTerminated 2 6] /\
    count_release 2 (new_events (two_created linux_keyed) w') = 2%nat.
Proof.
  apply (thread_life_exiting linux_keyed (two_created linux_keyed) 2 1 2 1 5 6
           [UseHeap]).
  - intros _. vm_compute. reflexivity.
  - vm_compute. reflexivity.
  - reflexivity.
  - vm_compute. reflexivity.
Defined.

Lemma pthread_exit_falls_through_to_exit_witness :
  exists w',
    pthread_exit linux_inline_returning 3 1 w_boot = (ProcessExit 0, w') /\
    new_events w_boot w' =
      setup_events linux_inline_returning w_boot 1
      ++ [EvClear 1 (TlabBuffer 1); EvReleaseHeap 1;
          EvForwardExit 1 3; EvProcessExit 0].
Proof.
  apply (pthread_exit_falls_through_to_exit linux_inline_returning w_boot 1 3).
  vm_compute. reflexivity.
Defined.

Lemma pthread_exit_unresolved_witness :
  exists w',
    pthread_exit linux_inline_nosym 3 1 w_boot = (Crashed, w') /\
    new_events w_boot w' =
      setup_events linux_inline_nosym w_boot 1
      ++ [EvClear 1 (TlabBuffer 1); EvReleaseHeap 1].
Proof.
  apply (pthread_exit_unresolved linux_inline_nosym w_boot 1 3). reflexivity.
Defined.

Lemma pthread_create_twice_witness :
  exists w1 w2,
    pthread_create linux_keyed 10 0 0%nat 5 0%nat w_boot = (Returned 0, w1) /\
    pthread_create linux_keyed 11 0 1%nat 7 3%nat w1 = (Returned 0, w2) /\
    new_events w1 w2 =
      [EvAnyThreadCreated; EvNewPair 3 (NewBlock 1) 1 7;
       EvRealCreate 3 11 0 StartMeUp (NewBlock 1)] /\
    pairs w2 !! 0%nat = Some (0%nat, 5) /\
    pairs w2 !! 1%nat = Some (1%nat, 7).
Proof.
  apply (pthread_create_twice linux_keyed w_boot 0 3 10 0 11 0 0 1 5 7
           (fun _ _ _ _ => 0)).
  vm_compute. reflexivity.
Defined.

Lemma pthread_create_failure_witness :
  exists w',
    pthread_create linux_keyed_nothreads 10 0 0%nat 5 0%nat w_boot
      = (Returned 11, w') /\
    spawned w' = spawned w_boot /\
    anyThreadCreated w' = true /\
    pairs w' !! 0%nat = Some (0%nat, 5).
Proof.
  apply (pthread_create_failure linux_keyed_nothreads w_boot 0 10 0 0 5
           (fun _ _ _ _ => 11)).
  - vm_compute. reflexivity.
  - vm_compute. discriminate.
Defined.

Lemma thread_leases_once_witness :
  exists w',
    thread_main linux_keyed_nokey (NewBlock 0) 1 (two_created linux_keyed_nokey)
      = (ThreadGone 6, w') /\
    count_find 1 (new_events (two_created linux_keyed_nokey) w') = 1%nat.
Proof.
  apply (thread_leases_once linux_keyed_nokey (two_created linux_keyed_nokey)
           1 0 0 5).
  - vm_compute. reflexivity.
  - repeat constructor.
Defined.

Lemma thread_life_leaves_others_witness :
  tls_value linux_keyed
    (snd (thread_main linux_keyed (NewBlock 0) 1 (two_created linux_keyed))) 0
  = tls_value linux_keyed (two_created linux_keyed) 0.
Proof.
  apply (thread_life_leaves_others linux_keyed (two_created linux_keyed) 1 0 0 0 5).
  - lia.
  - intros _. vm_compute. reflexivity.
  - vm_compute. reflexivity.
  - repeat constructor.
Defined.
